(** * Startup search agent: the tool executor, the delta accumulator and the
    agent loop of [backend/routes/chat.py], with the [companies] table of
    [backend/db/database.py].

    Conventions of the embedding.
    - A Python [str] is a Rocq [string], one [ascii] per character; the
      emoji of the progress notice is spelled by its UTF-8 bytes.
    - [None] is [None]; a truthiness test [if s:] on a string is
      [nonempty s].
    - The generator [run_agent] is a state-passing function: the state
      holds the message list sent to the model, the chunks yielded so far,
      and the counters of model invocations and storage queries. An
      exception ends the run and leaves the state as it was when raised.
    - Library code is either written out from its documented meaning
      (SQL [ILIKE] and [LIMIT], [str.join], list indexing) or taken as a
      field of [Collaborators] ([json.loads], [json.dumps], the model
      provider, the storage). *)

From Stdlib Require Import ZArith Ascii String.
From stdpp Require Import base tactics option list strings.

Local Open Scope string_scope.
Local Open Scope list_scope.
Local Set Warnings "-register-all".

(** ** Python values *)

(** [if s:] on a [str]. *)
Definition nonempty (s : string) : bool :=
  match s with
  | EmptyString => false
  | String _ _ => true
  end.

(** [if x:] on an [Optional[str]]. *)
Definition truthy (o : option string) : bool :=
  match o with
  | Some s => nonempty s
  | None => false
  end.

(** [x or ""] on an [Optional[str]]. *)
Definition or_empty (o : option string) : string :=
  match o with
  | Some s => s
  | None => EmptyString
  end.

(** [sep.join(l)] on a list of [str]. *)
Fixpoint join (sep : string) (l : list string) : string :=
  match l with
  | [] => EmptyString
  | [s] => s
  | s :: rest => s ++ sep ++ join sep rest
  end.

(** The value [json.loads] returns. An object keeps its keys in insertion
    order; a float is a mantissa and a binary exponent and is never
    inspected. *)
Inductive json : Type :=
| JNull
| JBool (b : bool)
| JInt (n : Z)
| JFloat (mantissa exponent : Z)
| JStr (s : string)
| JArr (items : list json)
| JObj (fields : list (string * json)).

(** [d.get(key)] on a [dict] held as its item list. *)
Fixpoint dict_get (key : string) (fields : list (string * json)) : option json :=
  match fields with
  | [] => None
  | (k, v) :: rest => if String.eqb k key then Some v else dict_get key rest
  end.

Inductive exn : Type :=
| JSONDecodeError
| AttributeError
| TypeError
| IndexError
| StorageError
| ProviderError.

Inductive result (A : Type) : Type :=
| Ok (a : A)
| Raise (e : exn).
Arguments Ok {A} a.
Arguments Raise {A} e.

(** ** SQL: [ILIKE], three-valued conditions, [WHERE] *)

Module Sql.

Definition percent : ascii := "%"%char.
Definition underscore : ascii := "_"%char.
Definition backslash : ascii := "\"%char.

(** Case folding of [ILIKE], on the letters A to Z. *)
Definition lower (c : ascii) : ascii :=
  let n := nat_of_ascii c in
  if (65 <=? n)%nat && (n <=? 90)%nat then ascii_of_nat (n + 32) else c.

(** [text LIKE pattern]: [%] stands for any run of characters, [_] for any
    one character, and a backslash makes the next pattern character
    literal. A lone backslash at the end of the pattern is an error in
    PostgreSQL; no pattern built by [search_startups] ends that way
    ([wrapped_pattern_ends_well]), and the matcher answers [false]. *)
Fixpoint like_match (p s : list ascii) {struct p} : bool :=
  match p with
  | [] => match s with [] => true | _ :: _ => false end
  | c :: p' =>
    if Ascii.eqb c percent then
      (fix skip (s : list ascii) : bool :=
         like_match p' s ||
         match s with [] => false | _ :: s' => skip s' end) s
    else if Ascii.eqb c underscore then
      match s with [] => false | _ :: s' => like_match p' s' end
    else if Ascii.eqb c backslash then
      match p' with
      | [] => false
      | d :: p'' =>
        match s with
        | [] => false
        | x :: s' => Ascii.eqb d x && like_match p'' s'
        end
      end
    else
      match s with
      | [] => false
      | x :: s' => Ascii.eqb c x && like_match p' s'
      end
  end.

Definition chars (s : string) : list ascii := list_ascii_of_string s.

(** [column.ilike(pattern)]: NULL on a NULL column, otherwise [LIKE] on
    the case-folded text and pattern. *)
Definition ilike (column : option string) (pattern : string) : option bool :=
  match column with
  | None => None
  | Some text => Some (like_match (map lower (chars pattern)) (map lower (chars text)))
  end.

(** [OR] and [AND] of SQL, where [None] is NULL. *)
Definition or (a b : option bool) : option bool :=
  match a, b with
  | Some true, _ | _, Some true => Some true
  | Some false, Some false => Some false
  | _, _ => None
  end.

Definition and (a b : option bool) : option bool :=
  match a, b with
  | Some false, _ | _, Some false => Some false
  | Some true, Some true => Some true
  | _, _ => None
  end.

(** [or_] applied to an unpacked, non-empty list of conditions. *)
Fixpoint or_ (conditions : list (option bool)) : option bool :=
  match conditions with
  | [] => Some false
  | [c] => c
  | c :: rest => or c (or_ rest)
  end.

(** A row is selected when the [WHERE] condition is true, not when it is
    false or NULL. *)
Definition selected (condition : option bool) : bool :=
  match condition with
  | Some true => true
  | _ => false
  end.

End Sql.

(** ** The [companies] table ([backend/db/database.py]) *)

(** One row of [Company]. The columns the search reads are declared
    without [nullable=False], so each can hold NULL. The [created_at]
    timestamp is not read by the search and is left out. *)
Record Company : Type := {
  id : Z;
  company_name : option string;
  company_id : option Z;
  city : option string;
  description : option string;
  website_url : option string;
  website_text : option string;
}.

(** ** The tool executor, [search_startups] *)

(** One dict of the returned list. [company_name] is copied as stored, so
    it can be [None]. *)
Record SearchResult : Type := {
  r_company_name : option string;
  r_description : string;
  r_website_url : string;
  r_city : string;
}.

(** [f"%{kw}%"] *)
Definition wrap (kw : string) : string := "%" ++ kw ++ "%".

(** The [or_] of the three [ilike] tests for one keyword. *)
Definition keyword_condition (kw : string) (r : Company) : option bool :=
  let pattern := wrap kw in
  Sql.or_ [Sql.ilike (company_name r) pattern;
           Sql.ilike (description r) pattern;
           Sql.ilike (website_text r) pattern].

(** [if keywords:] filter by the [or_] of the keyword conditions. *)
Definition keyword_stage (keywords : list string) (r : Company) : option bool :=
  match keywords with
  | [] => Some true
  | _ :: _ => Sql.or_ (map (fun kw => keyword_condition kw r) keywords)
  end.

(** [if city: query = query.filter(Company.city.ilike(f"%{city}%"))] *)
Definition city_stage (city_arg : option string) (r : Company) : option bool :=
  match city_arg with
  | Some c => if nonempty c then Sql.ilike (city r) (wrap c) else Some true
  | None => Some true
  end.

(** Two chained [filter] calls are the [AND] of their conditions. *)
Definition where_clause (keywords : list string) (city_arg : option string)
    (r : Company) : bool :=
  Sql.selected (Sql.and (keyword_stage keywords r) (city_stage city_arg r)).

(** [query.limit(limit).all()]: the first [limit] selected rows, in the
    order the table yields them. *)
Definition search_rows (table : list Company) (keywords : list string)
    (city_arg : option string) (limit : nat) : list Company :=
  take limit (List.filter (where_clause keywords city_arg) table).

(** [(r.description or "")[:300]] and the three other keys. *)
Definition to_result (r : Company) : SearchResult :=
  {| r_company_name := company_name r;
     r_description := substring 0 300 (or_empty (description r));
     r_website_url := or_empty (website_url r);
     r_city := or_empty (city r) |}.

(** [search_startups(keywords, city, limit)] against a table that answers. *)
Definition search_startups (table : list Company) (keywords : list string)
    (city_arg : option string) (limit : nat) : list SearchResult :=
  map to_result (search_rows table keywords city_arg limit).

(** ** The streamed events of one model turn *)

(** [tc.function] of a tool-call delta. *)
Record FunctionDelta : Type := {
  fn_name : option string;
  fn_arguments : option string;
}.

(** One entry of [delta.tool_calls]. *)
Record ToolCallDelta : Type := {
  tc_index : option Z;
  tc_id : option string;
  tc_function : option FunctionDelta;
}.

(** [chunk.choices[0].delta] *)
Record ChoiceDelta : Type := {
  content : option string;
  tool_calls : option (list ToolCallDelta);
}.

Record Choice : Type := {
  delta : option ChoiceDelta;
  finish_reason : option string;
}.

Record Chunk : Type := {
  choices : list Choice;
}.

(** What the response stream does next: hand over a chunk, or raise. *)
Inductive StreamEvent : Type :=
| Item (chunk : Chunk)
| Broken.

(** ** The delta accumulator (lines 163 to 176 of [run_agent]) *)

(** One dict of the local list [tool_calls]. *)
Record ToolCall : Type := {
  call_id : string;
  call_name : string;
  call_arguments : string;
}.

(** [{"id": "", "name": "", "arguments": ""}] *)
Definition empty_call : ToolCall :=
  {| call_id := EmptyString; call_name := EmptyString; call_arguments := EmptyString |}.

Definition set_id (v : string) (c : ToolCall) : ToolCall :=
  {| call_id := v; call_name := call_name c; call_arguments := call_arguments c |}.

Definition set_name (v : string) (c : ToolCall) : ToolCall :=
  {| call_id := call_id c; call_name := v; call_arguments := call_arguments c |}.

Definition add_arguments (v : string) (c : ToolCall) : ToolCall :=
  {| call_id := call_id c; call_name := call_name c;
     call_arguments := call_arguments c ++ v |}.

(** [while len(tool_calls) <= index: tool_calls.append({...})] *)
Definition pad (calls : list ToolCall) (index : Z) : list ToolCall :=
  calls ++ replicate (Z.to_nat (index + 1 - Z.of_nat (length calls))) empty_call.

(** The position [l[index]] denotes in a Python list of length [len]: a
    negative index counts from the end, and an index outside
    [-len .. len-1] raises [IndexError]. *)
Definition slot (len : nat) (index : Z) : option nat :=
  if (0 <=? index)%Z then
    if (index <? Z.of_nat len)%Z then Some (Z.to_nat index) else None
  else
    if (- Z.of_nat len <=? index)%Z then Some (Z.to_nat (Z.of_nat len + index)) else None.

(** [tool_calls[index][field] = ...], in place. *)
Definition update_at (index : Z) (f : ToolCall -> ToolCall)
    (calls : list ToolCall) : result (list ToolCall) :=
  match slot (length calls) index with
  | Some i => Ok (alter f i calls)
  | None => Raise IndexError
  end.

(** An update guarded by [if value:]. *)
Definition update_if (value : option string) (index : Z)
    (f : string -> ToolCall -> ToolCall)
    (calls : list ToolCall) : result (list ToolCall) :=
  match value with
  | Some v => if nonempty v then update_at index (f v) calls else Ok calls
  | None => Ok calls
  end.

Definition bind_result {A B : Type} (r : result A) (k : A -> result B) : result B :=
  match r with
  | Ok a => k a
  | Raise e => Raise e
  end.

(** The body of [for tc in delta.tool_calls]. *)
Definition accumulate (calls : list ToolCall) (tc : ToolCallDelta)
    : result (list ToolCall) :=
  match tc_index tc with
  | None => Ok calls
  | Some index =>
    let calls := pad calls index in
    bind_result (update_if (tc_id tc) index set_id calls) (fun calls =>
    match tc_function tc with
    | None => Ok calls
    | Some fn =>
      bind_result (update_if (fn_name fn) index set_name calls) (fun calls =>
      update_if (fn_arguments fn) index add_arguments calls)
    end)
  end.

(** The [for] loop over the fragments of one delta, and over the
    fragments of a whole turn. *)
Fixpoint accumulate_all (calls : list ToolCall) (tcs : list ToolCallDelta)
    : result (list ToolCall) :=
  match tcs with
  | [] => Ok calls
  | tc :: rest => bind_result (accumulate calls tc) (fun calls => accumulate_all calls rest)
  end.

(** ** The agent loop, [run_agent] *)

(** One dict of [openai_messages]: the system and caller messages carry a
    role and a text; the assistant message of a tool turn carries
    [tool_calls]; a tool message carries [tool_call_id]. *)
Inductive Message : Type :=
| Plain (role : string) (text : string)
| Assistant (text : option string) (calls : list ToolCall)
| ToolMessage (tool_call_id : string) (text : string).

(** What the loop reads and writes: the message list, the chunks handed to
    the consumer of the generator, and how many times the model and the
    storage were called. *)
Record State : Type := {
  openai_messages : list Message;
  yielded : list string;
  invocations : nat;
  queries : nat;
}.

(** A computation that may raise; the state survives the exception. *)
Definition M (A : Type) : Type := State -> result A * State.

Definition ret {A : Type} (a : A) : M A := fun st => (Ok a, st).

Definition raise {A : Type} (e : exn) : M A := fun st => (Raise e, st).

Definition bind {A B : Type} (m : M A) (k : A -> M B) : M B :=
  fun st =>
    match m st with
    | (Ok a, st') => k a st'
    | (Raise e, st') => (Raise e, st')
    end.

Notation "x <- m ;; k" := (bind m (fun x => k))
  (at level 100, m at next level, right associativity).
Notation "m ;; k" := (bind m (fun _ => k))
  (at level 100, right associativity).

Definition lift {A : Type} (r : result A) : M A := fun st => (r, st).

(** [yield chunk] *)
Definition yield (chunk : string) : M unit := fun st =>
  (Ok tt, {| openai_messages := openai_messages st;
             yielded := yielded st ++ [chunk];
             invocations := invocations st;
             queries := queries st |}).

(** [openai_messages.append(message)] *)
Definition append_message (message : Message) : M unit := fun st =>
  (Ok tt, {| openai_messages := openai_messages st ++ [message];
             yielded := yielded st;
             invocations := invocations st;
             queries := queries st |}).

Definition newline : string := String "010"%char EmptyString.

(** The magnifying glass U+1F50D, in UTF-8. *)
Definition magnifier : string :=
  String "240"%char (String "159"%char (String "148"%char (String "141"%char EmptyString))).

(** The progress notice yielded before a search. *)
Definition notice (keywords : list string) : string :=
  newline ++ newline ++ magnifier ++ " *Searching database for: "
    ++ join ", " keywords ++ "...*" ++ newline ++ newline.

(** The strings [', '.join(keywords)] and [for kw in keywords] iterate
    over: the items of a list when all are [str], the characters of a
    [str], the keys of a [dict]; anything else raises [TypeError]. *)
Definition as_str (v : json) : option string :=
  match v with
  | JStr s => Some s
  | _ => None
  end.

Definition iterate_strings (v : json) : result (list string) :=
  match v with
  | JArr items =>
    match mapM as_str items with
    | Some l => Ok l
    | None => Raise TypeError
    end
  | JStr s => Ok (map (fun c => String c EmptyString) (list_ascii_of_string s))
  | JObj fields => Ok (map fst fields)
  | _ => Raise TypeError
  end.

(** [args.get("city")] as the [str | None] that [search_startups]
    declares; [None] on any other value. *)
Definition typed_city (v : option json) : option (option string) :=
  match v with
  | None => Some None
  | Some JNull => Some None
  | Some (JStr s) => Some (Some s)
  | Some _ => None
  end.

(** The largest value of the 64-bit integer a [LIMIT] is. *)
Definition max_limit : Z := 9223372036854775807.

(** [args.get("limit", 10)] as an [int] a [LIMIT] takes, from 0 to
    [max_limit]; [None] on any other value. *)
Definition typed_limit (v : option json) : option nat :=
  match v with
  | None => Some 10%nat
  | Some (JInt n) =>
    if (0 <=? n)%Z && (n <=? max_limit)%Z then Some (Z.to_nat n) else None
  | Some _ => None
  end.

(** An [int] past [max_limit]: the query that carries it raises. *)
Definition limit_too_large (v : option json) : bool :=
  match v with
  | Some (JInt n) => (max_limit <? n)%Z
  | _ => false
  end.

(** The names listed under ["required"] in [SEARCH_TOOL]. *)
Definition SEARCH_TOOL_required : list string := ["keywords"].

(** What [run_agent] reaches outside this module. *)
Record Collaborators : Type := {
  (** the text of the system message *)
  SYSTEM_PROMPT : string;
  (** [json.loads]; [None] when it raises *)
  json_loads : string -> option json;
  (** [json.dumps] on the list of result dicts *)
  json_dumps : list SearchResult -> string;
  (** the events of the stream the model provider answers with, given
      the messages sent *)
  provider : list Message -> list StreamEvent;
  (** the rows the n-th query of the request reads; [None] when that
      query raises *)
  storage : nat -> option (list Company);
  (** [search_startups] on a city outside its annotation, or on a limit
      that is no integer or is negative (what SQLAlchemy makes of such a
      value is not written out here) *)
  foreign_search : list string -> option json -> option json -> nat -> result (list SearchResult);
}.

Section Agent.

Variable env : Collaborators.

(** The call [search_startups(keywords=..., city=..., limit=...)] of line
    214, counted as one storage query. *)
Definition call_search (keywords : list string) (city_value limit_value : option json)
    : M (list SearchResult) := fun st =>
  let st' := {| openai_messages := openai_messages st;
                yielded := yielded st;
                invocations := invocations st;
                queries := S (queries st) |} in
  match typed_city city_value, typed_limit limit_value with
  | Some city_arg, Some limit =>
    match storage env (queries st) with
    | Some table => (Ok (search_startups table keywords city_arg limit), st')
    | None => (Raise StorageError, st')
    end
  | Some _, None =>
    if limit_too_large limit_value then (Raise StorageError, st')
    else (foreign_search env keywords city_value limit_value (queries st), st')
  | None, _ => (foreign_search env keywords city_value limit_value (queries st), st')
  end.

(** [json.loads(tc["arguments"])] followed by the first [args.get]. *)
Definition load_arguments (arguments : string) : result (list (string * json)) :=
  match json_loads env arguments with
  | None => Raise JSONDecodeError
  | Some (JObj fields) => Ok fields
  | Some _ => Raise AttributeError
  end.

(** The body of [for tc in tool_calls] (lines 202 to 225). *)
Definition run_tool_call (tc : ToolCall) : M unit :=
  if nonempty (call_name tc) then
    args <- lift (load_arguments (call_arguments tc)) ;;
    keywords <- lift (iterate_strings (default (JArr []) (dict_get "keywords" args))) ;;
    yield (notice keywords) ;;
    results <- call_search keywords (dict_get "city" args) (dict_get "limit" args) ;;
    append_message (ToolMessage (call_id tc) (json_dumps env results))
  else ret tt.

Fixpoint run_tool_calls (calls : list ToolCall) : M unit :=
  match calls with
  | [] => ret tt
  | tc :: rest => run_tool_call tc ;; run_tool_calls rest
  end.

(** [delta = chunk.choices[0].delta if chunk.choices else None] *)
Definition first_choice (chunk : Chunk) : option Choice := head (choices chunk).

(** The text branch of the stream loop (lines 158 to 160). *)
Definition handle_content (d : ChoiceDelta) (collected : string) : M string :=
  match content d with
  | Some text => if nonempty text then yield text ;; ret (collected ++ text)%string else ret collected
  | None => ret collected
  end.

(** The tool-call branch of the stream loop (lines 163 to 176). *)
Definition handle_tool_calls (d : ChoiceDelta) (calls : list ToolCall)
    : result (list ToolCall) :=
  match tool_calls d with
  | Some tcs => accumulate_all calls tcs
  | None => Ok calls
  end.

(** [async for chunk in response], up to the first chunk with a finish
    reason or the end of the stream. *)
Fixpoint consume (stream : list StreamEvent) (collected : string)
    (calls : list ToolCall) : M (string * list ToolCall) :=
  match stream with
  | [] => ret (collected, calls)
  | Broken :: _ => raise ProviderError
  | Item chunk :: rest =>
    match first_choice chunk with
    | None => consume rest collected calls
    | Some choice =>
      match delta choice with
      | None => consume rest collected calls
      | Some d =>
        collected <- handle_content d collected ;;
        calls <- lift (handle_tool_calls d calls) ;;
        if truthy (finish_reason choice) then ret (collected, calls)
        else consume rest collected calls
      end
    end
  end.

(** [client.chat.completions.create(...)] with the current messages. *)
Definition invoke_model : M (list StreamEvent) := fun st =>
  (Ok (provider env (openai_messages st)),
   {| openai_messages := openai_messages st;
      yielded := yielded st;
      invocations := S (invocations st);
      queries := queries st |}).

(** [if tool_calls and tool_calls[0].get("name")] *)
Definition has_tool_calls (calls : list ToolCall) : bool :=
  match calls with
  | [] => false
  | first :: _ => nonempty (call_name first)
  end.

Definition named (tc : ToolCall) : bool := nonempty (call_name tc).

(** The assistant message of lines 185 to 199. *)
Definition assistant_message (collected : string) (calls : list ToolCall) : Message :=
  Assistant (if nonempty collected then Some collected else None)
            (List.filter named calls).

(** The first half of a pass through [while True]: call the model and
    collect its stream (lines 141 to 180). *)
Definition receive : M (string * list ToolCall) :=
  stream <- invoke_model ;;
  consume stream EmptyString [].

(** One pass through the body of [while True]; [true] stands for
    [continue], [false] for [break]. *)
Definition turn : M bool :=
  finalized <- receive ;;
  let collected := fst finalized in
  let calls := snd finalized in
  if has_tool_calls calls then
    append_message (assistant_message collected calls) ;;
    run_tool_calls calls ;;
    ret true
  else ret false.

(** How a bounded run of the loop ended. *)
Inductive Completion : Type :=
| Finished
| OutOfFuel.

(** [while True], cut after [fuel] passes. *)
Fixpoint agent_loop (fuel : nat) : M Completion :=
  match fuel with
  | O => ret OutOfFuel
  | S fuel' =>
    again <- turn ;;
    if again then agent_loop fuel' else ret Finished
  end.

(** The messages the loop starts from (lines 135 to 137). *)
Definition initial_messages (messages : list (string * string)) : list Message :=
  Plain "system" (SYSTEM_PROMPT env) :: map (fun m => Plain (fst m) (snd m)) messages.

Definition initial_state (messages : list (string * string)) : State :=
  {| openai_messages := initial_messages messages;
     yielded := [];
     invocations := 0;
     queries := 0 |}.

Definition run_agent (fuel : nat) (messages : list (string * string))
    : result Completion * State :=
  agent_loop fuel (initial_state messages).

End Agent.

(** ** Predicates the properties are stated with *)

(** [p] is a prefix of [s]; [p] occurs somewhere in [s]. *)
Fixpoint prefix_b (p s : list ascii) : bool :=
  match p, s with
  | [], _ => true
  | _ :: _, [] => false
  | c :: p', x :: s' => Ascii.eqb c x && prefix_b p' s'
  end.

Fixpoint infix_b (p s : list ascii) : bool :=
  prefix_b p s || match s with [] => false | _ :: s' => infix_b p s' end.

(** [kw] occurs in the stored text as a substring, letter case aside. A
    NULL column contains nothing. *)
Definition occurs_ci (kw : string) (column : option string) : bool :=
  match column with
  | None => false
  | Some text => infix_b (map Sql.lower (Sql.chars kw)) (map Sql.lower (Sql.chars text))
  end.

(** A character that [LIKE] reads as itself. *)
Definition plain_char (c : ascii) : bool :=
  negb (Ascii.eqb c Sql.percent) && negb (Ascii.eqb c Sql.underscore)
    && negb (Ascii.eqb c Sql.backslash).

(** A search term free of [%], [_] and the backslash. *)
Definition plain (s : string) : bool := forallb plain_char (Sql.chars s).

(** A pattern whose last character is a backslash that escapes nothing. *)
Fixpoint dangling_escape (p : list ascii) : bool :=
  match p with
  | [] => false
  | c :: p' =>
    if Ascii.eqb c Sql.backslash then
      match p' with
      | [] => true
      | _ :: p'' => dangling_escape p''
      end
    else dangling_escape p'
  end.

(** The keyword stage alone and the city stage alone, as row filters. *)
Definition passes_keywords (keywords : list string) (r : Company) : bool :=
  Sql.selected (keyword_stage keywords r).

Definition passes_city (city_arg : option string) (r : Company) : bool :=
  Sql.selected (city_stage city_arg r).

(** Some keyword occurs in the name, the description or the website text. *)
Definition some_keyword_occurs (keywords : list string) (r : Company) : bool :=
  existsb (fun kw => occurs_ci kw (company_name r) || occurs_ci kw (description r)
                       || occurs_ci kw (website_text r)) keywords.

(** The descriptor ids a tool message may refer to after the messages
    [ms]: those of the assistant message that precedes it with nothing but
    tool messages in between. *)
Fixpoint open_ids (ids : list string) (ms : list Message) : list string :=
  match ms with
  | [] => ids
  | Plain _ _ :: rest => open_ids [] rest
  | Assistant _ calls :: rest => open_ids (map call_id calls) rest
  | ToolMessage _ _ :: rest => open_ids ids rest
  end.

(** Every [tool_call_id] is the id of a descriptor of the assistant
    message just before its run of tool messages. *)
Fixpoint linked (ids : list string) (ms : list Message) : bool :=
  match ms with
  | [] => true
  | Plain _ _ :: rest => linked [] rest
  | Assistant _ calls :: rest => linked (map call_id calls) rest
  | ToolMessage i _ :: rest => existsb (String.eqb i) ids && linked ids rest
  end.

(** The four ways the body of [for tc in tool_calls] can end, with the
    state it leaves: the record has no name and nothing happens; the call
    is answered, with one notice, one query and one tool message; the
    arguments are rejected before anything is sent; the search raises
    after the notice. *)
Inductive call_outcome (tc : ToolCall) (st : State) : result unit -> State -> Prop :=
| call_skipped :
    named tc = false ->
    call_outcome tc st (Ok tt) st
| call_answered (keywords : list string) (text : string) :
    named tc = true ->
    call_outcome tc st (Ok tt)
      {| openai_messages := openai_messages st ++ [ToolMessage (call_id tc) text];
         yielded := yielded st ++ [notice keywords];
         invocations := invocations st;
         queries := S (queries st) |}
| call_rejected (e : exn) :
    named tc = true ->
    call_outcome tc st (Raise e) st
| call_failed (e : exn) (keywords : list string) :
    named tc = true ->
    call_outcome tc st (Raise e)
      {| openai_messages := openai_messages st;
         yielded := yielded st ++ [notice keywords];
         invocations := invocations st;
         queries := S (queries st) |}.

(** The tool messages of a message list, as their [tool_call_id]s. *)
Definition tool_message_ids (ms : list Message) : list string :=
  omap (fun m => match m with ToolMessage i _ => Some i | _ => None end) ms.

(** The argument text a fragment carries, empty when it carries none. *)
Definition chunk_of (tc : ToolCallDelta) : string :=
  match tc_function tc with
  | Some fn => or_empty (fn_arguments fn)
  | None => EmptyString
  end.

Definition concat_chunks (chunks : list string) : string :=
  foldr String.append EmptyString chunks.

(** The fragments that carry index [i]. *)
Definition carries (i : Z) (tc : ToolCallDelta) : bool :=
  match tc_index tc with
  | Some j => (j =? i)%Z
  | None => false
  end.

(** The record at position [j], read as the empty record past the end:
    padding cannot be told from absence. *)
Definition record_at (calls : list ToolCall) (j : nat) : ToolCall :=
  default empty_call (calls !! j).

(** What one fragment does to the record it addresses. *)
Definition merge (tc : ToolCallDelta) (c : ToolCall) : ToolCall :=
  let c := match tc_id tc with
           | Some v => if nonempty v then set_id v c else c
           | None => c
           end in
  match tc_function tc with
  | None => c
  | Some fn =>
    let c := match fn_name fn with
             | Some v => if nonempty v then set_name v c else c
             | None => c
             end in
    match fn_arguments fn with
    | Some v => if nonempty v then add_arguments v c else c
    | None => c
    end
  end.

(** The fragments of [tcs] that address position [j], merged in arrival
    order into the record [c]. *)
Definition merged (j : nat) (tcs : list ToolCallDelta) (c : ToolCall) : ToolCall :=
  foldl (fun c tc => merge tc c) c (List.filter (carries (Z.of_nat j)) tcs).

(** No fragment carries a negative index. *)
Definition indexed_from_zero (tcs : list ToolCallDelta) : bool :=
  forallb (fun tc => match tc_index tc with Some j => (0 <=? j)%Z | None => true end) tcs.

(** One more than the largest index carried, [0] when none is. *)
Definition extent (tcs : list ToolCallDelta) : nat :=
  foldr (fun tc n => match tc_index tc with
                     | Some j => Nat.max n (Z.to_nat (j + 1))
                     | None => n
                     end) 0%nat tcs.

(** A fragment that carries only an index and argument text. *)
Definition arguments_fragment (i : Z) (text : string) : ToolCallDelta :=
  {| tc_index := Some i;
     tc_id := None;
     tc_function := Some {| fn_name := None; fn_arguments := Some text |} |}.

(** ** Collaborators of the worked examples *)

Module Examples.

(** [json.loads] as far as the examples go: they send the text of the
    empty object, which loads, and the lone opening brace of a document
    cut short, which does not. No other text is sent. *)
Definition loads (s : string) : option json :=
  if String.eqb s "{}" then Some (JObj []) else None.

Definition dumps (results : list SearchResult) : string :=
  "[" ++ join ", " (map (fun r => or_empty (r_company_name r)) results) ++ "]".

(** A provider that answers its n-th call with the n-th stream of a
    script, reading n off the assistant messages already sent. *)
Definition scripted (script : list (list StreamEvent)) (ms : list Message)
    : list StreamEvent :=
  let n := length (List.filter (fun m => match m with Assistant _ _ => true | _ => false end) ms) in
  nth n script [].

Definition fragment (i : Z) (call : option string) (name : option string)
    (text : option string) : ToolCallDelta :=
  {| tc_index := Some i;
     tc_id := call;
     tc_function := Some {| fn_name := name; fn_arguments := text |} |}.

(** A chunk with one choice. *)
Definition chunk (text : option string) (tcs : list ToolCallDelta)
    (finish : option string) : StreamEvent :=
  Item {| choices := [ {| delta := Some {| content := text; tool_calls := Some tcs |};
                         finish_reason := finish |} ] |}.

Definition acme : Company :=
  {| id := 1%Z; company_name := Some "Acme Pay"; company_id := Some 7%Z;
     city := Some "Boston"; description := Some "Fintech for payroll";
     website_url := Some "https://acme.example"; website_text := None |}.

Definition abc : Company :=
  {| id := 2%Z; company_name := Some "abc"; company_id := None;
     city := Some "New York"; description := None;
     website_url := None; website_text := None |}.

(** A row whose name column is NULL. *)
Definition nameless : Company :=
  {| id := 3%Z; company_name := None; company_id := None;
     city := None; description := Some "Payments API";
     website_url := None; website_text := None |}.

Definition table : list Company := [acme; abc; nameless].

Definition world (script : list (list StreamEvent)) (db : nat -> option (list Company))
    : Collaborators :=
  {| SYSTEM_PROMPT := "You are a startup search assistant.";
     json_loads := loads;
     json_dumps := dumps;
     provider := scripted script;
     storage := db;
     foreign_search := fun _ _ _ _ => Raise TypeError |}.

Definition up : nat -> option (list Company) := fun _ => Some table.
Definition down : nat -> option (list Company) := fun _ => None.

(** Turn 1 asks for one search, named at index 0; turn 2 answers in text. *)
Definition one_search : list (list StreamEvent) :=
  [ [chunk None [fragment 0 (Some "call_a") (Some "search_startups") (Some "{")] None;
     chunk None [fragment 0 None None (Some "}")] (Some "tool_calls")];
    [chunk (Some "Here is the table.") [] (Some "stop")] ].

(** A turn whose only fragment carries index 1: the record at index 0 is
    padding, the record at index 1 is a named call. *)
Definition second_only : list (list StreamEvent) :=
  [ [chunk None [fragment 1 (Some "call_b") (Some "search_startups") (Some "{}")]
       (Some "tool_calls")];
    [chunk (Some "Here is the table.") [] (Some "stop")] ].

(** A turn with two named calls, both well formed. *)
Definition two_searches : list (list StreamEvent) :=
  [ [chunk (Some "Looking.") [fragment 0 (Some "call_a") (Some "search_startups") (Some "{}");
                 fragment 1 (Some "call_b") (Some "search_startups") (Some "{}")]
       (Some "tool_calls")];
    [chunk (Some "Here is the table.") [] (Some "stop")] ].

(** The records those turns finalize. *)
Definition call_a : ToolCall :=
  {| call_id := "call_a"; call_name := "search_startups"; call_arguments := "{}" |}.
Definition call_b : ToolCall :=
  {| call_id := "call_b"; call_name := "search_startups"; call_arguments := "{}" |}.
Definition call_b_cut : ToolCall :=
  {| call_id := "call_b"; call_name := "search_startups"; call_arguments := "{" |}.
Definition call_c : ToolCall :=
  {| call_id := "call_c"; call_name := "search_startups"; call_arguments := "{}" |}.

(** A turn with three named calls; the second has arguments cut short. *)
Definition middle_cut_short : list (list StreamEvent) :=
  [ [chunk (Some "Looking.")
       [fragment 0 (Some "call_a") (Some "search_startups") (Some "{}");
        fragment 1 (Some "call_b") (Some "search_startups") (Some "{");
        fragment 2 (Some "call_c") (Some "search_startups") (Some "{}")]
       (Some "tool_calls")];
    [chunk (Some "Here is the table.") [] (Some "stop")] ].

Definition hello : list (string * string) := [("user", "list fintech startups")].

End Examples.

(** ** The request side of [chat.py]: [extract_text] and [chat] *)

Module Request.

(** [class MessagePart(BaseModel)] *)
Record MessagePart : Type := {
  type : string;
  text : option string;
}.

(** [class Message(BaseModel)] *)
Record Message : Type := {
  id : option string;
  role : string;
  parts : list MessagePart;
}.

(** [class ChatRequest(BaseModel)] *)
Record ChatRequest : Type := {
  messages : list Message;
}.

(** The filter of the generator in [extract_text]:
    [part.type == "text" and part.text]. *)
Definition text_of (part : MessagePart) : option string :=
  if String.eqb (type part) "text" && truthy (text part) then text part else None.

(** [extract_text(message)] *)
Definition extract_text (message : Message) : string :=
  join " " (omap text_of (parts message)).

(** The list [chat] builds from the request (lines 237 to 240). *)
Definition flatten (request : ChatRequest) : list (string * string) :=
  map (fun m => (role m, extract_text m)) (messages request).

End Request.

(** [chat(request)]: the generator handed to [StreamingResponse]. *)
Definition chat (env : Collaborators) (fuel : nat) (request : Request.ChatRequest)
    : result Completion * State :=
  run_agent env fuel (Request.flatten request).

(** ** Start-up and seeding ([main.py]) *)

Module Seed.

(** One dict of [csv.DictReader]: a cell is [None] where the line is
    shorter than the header. *)
Definition Row : Type := list (string * option string).

Fixpoint lookup_cell (key : string) (row : Row) : option (option string) :=
  match row with
  | [] => None
  | (k, v) :: rest => if String.eqb k key then Some v else lookup_cell key rest
  end.

(** [row.get(key, '')] *)
Definition get (key : string) (row : Row) : option string :=
  match lookup_cell key row with
  | Some v => v
  | None => Some EmptyString
  end.

(** The characters [str.isdigit] accepts, among the first 256: the
    decimal digits and the superscripts one, two and three. *)
Definition is_decimal (c : ascii) : bool :=
  let n := nat_of_ascii c in (48 <=? n)%nat && (n <=? 57)%nat.

Definition is_digit (c : ascii) : bool :=
  let n := nat_of_ascii c in
  is_decimal c || Nat.eqb n 178 || Nat.eqb n 179 || Nat.eqb n 185.

(** [s.isdigit()] *)
Definition isdigit (s : string) : bool :=
  nonempty s && forallb is_digit (list_ascii_of_string s).

(** The value of a run of decimal digits, most significant first. *)
Definition decimal_value (s : string) : Z :=
  foldl (fun acc c => (10 * acc + Z.of_nat (nat_of_ascii c - 48))%Z) 0%Z
        (list_ascii_of_string s).

(** [int(s)] on a string [isdigit] accepts: [None] stands for the
    [ValueError] that a superscript digit raises, and that a string of
    more than 4300 digits raises. *)
Definition int (s : string) : option Z :=
  if forallb is_decimal (list_ascii_of_string s) && (String.length s <=? 4300)%nat
  then Some (decimal_value s) else None.

(** [int(row.get('Company ID', 0)) if row.get('Company ID', '').isdigit() else None];
    the outer [None] stands for an exception ([AttributeError] on a
    missing cell, [ValueError] from [int]). *)
Definition company_id_of (row : Row) : option (option Z) :=
  match get "Company ID" row with
  | None => None
  | Some cell => if isdigit cell then Some <$> int cell else Some None
  end.

(** [database.Company(...)] of lines 59 to 66, with the key the table
    assigns on insert. *)
Definition company_of_row (key : Z) (row : Row) : option Company :=
  match company_id_of row with
  | None => None
  | Some cid =>
    Some {| id := key;
            company_name := get "Company Name" row;
            company_id := cid;
            city := get "City" row;
            description := get "Description" row;
            website_url := get "Website URL" row;
            website_text := get "Website Text" row |}
  end.

(** The file at [csv_path]: absent, without a first line for [next(file)]
    to skip, or read by [csv.DictReader] into its rows. *)
Inductive CsvFile : Type :=
| Missing
| NoTitleLine
| Rows (rows : list Row).

(** The two tables. *)
Record Database : Type := {
  companies : list Company;
  settings : list string;
}.

(** An [INTEGER] column holds 32 bits. *)
Definition fits_integer (c : Company) : bool :=
  match company_id c with
  | Some n => (n <=? 2147483647)%Z && (-2147483648 <=? n)%Z
  | None => true
  end.

(** A text the driver refuses to send: it holds the NUL character. *)
Definition holds_nul (text : option string) : bool :=
  match text with
  | Some s => existsb (Ascii.eqb Ascii.zero) (list_ascii_of_string s)
  | None => false
  end.

(** The five columns of the file that are read as text. *)
Definition text_columns : list string :=
  ["Company Name"; "City"; "Description"; "Website URL"; "Website Text"].

(** A company the [INSERT] of lines 69 and 70 takes: its id fits the
    column and none of its texts holds NUL. *)
Definition accepted (c : Company) : bool :=
  fits_integer c
  && negb (holds_nul (company_name c) || holds_nul (city c) || holds_nul (description c)
           || holds_nul (website_url c) || holds_nul (website_text c)).

(** The loop of lines 58 to 67: all rows are converted before any is
    saved. *)
Fixpoint convert (keys : nat -> Z) (position : nat) (rows : list Row)
    : option (list Company) :=
  match rows with
  | [] => Some []
  | row :: rest =>
    match company_of_row (keys position) row with
    | None => None
    | Some c =>
      match convert keys (S position) rest with
      | None => None
      | Some cs => Some (c :: cs)
      end
    end
  end.

(** How [seed_database] or [lifespan] leaves the database: returned, or
    raised. The [TRUNCATE] is committed before the file is read, so an
    exception leaves the table empty. *)
Inductive Outcome : Type :=
| Returned (db : Database)
| Raised (db : Database).

Definition truncated (db : Database) : Database :=
  {| companies := []; settings := settings db |}.

(** [seed_database(db)]; [keys] gives the primary key of the n-th
    inserted row. *)
Definition seed_database (file : CsvFile) (keys : nat -> Z) (db : Database) : Outcome :=
  match file with
  | Missing => Returned (truncated db)
  | NoTitleLine => Raised (truncated db)
  | Rows rows =>
    match convert keys 0 rows with
    | None => Raised (truncated db)
    | Some cs =>
      if forallb accepted cs
      then Returned {| companies := cs; settings := settings db |}
      else Raised (truncated db)
    end
  end.

(** [db.query(Settings).get("seeded")] *)
Definition seeded (db : Database) : bool :=
  existsb (String.eqb "seeded") (settings db).

(** The start-up half of [lifespan] (lines 19 to 27). *)
Definition lifespan (file : CsvFile) (keys : nat -> Z) (db : Database) : Outcome :=
  if seeded db then Returned db
  else
    match seed_database file keys db with
    | Returned db' =>
      Returned {| companies := companies db'; settings := "seeded" :: settings db' |}
    | Raised db' => Raised db'
    end.

End Seed.

(** ** More predicates *)

(** A chunk the stream loop passes over: no choice, or a first choice
    without a delta. *)
Definition inert (chunk : Chunk) : bool :=
  match head (choices chunk) with
  | None => true
  | Some choice => match delta choice with None => true | Some _ => false end
  end.

(** A chunk the stream loop stops at: its first choice has a delta and a
    finish reason. *)
Definition finishing (chunk : Chunk) : bool :=
  match head (choices chunk) with
  | None => false
  | Some choice =>
    match delta choice with
    | None => false
    | Some _ => truthy (finish_reason choice)
    end
  end.

(** The fragments a chunk hands to the accumulator. *)
Definition fragments (chunk : Chunk) : list ToolCallDelta :=
  match head (choices chunk) with
  | None => []
  | Some choice =>
    match delta choice with
    | None => []
    | Some d => default [] (tool_calls d)
    end
  end.

(** A stream that delivers every chunk, all fragments indexed from zero. *)
Definition sound_event (event : StreamEvent) : bool :=
  match event with
  | Item chunk => indexed_from_zero (fragments chunk)
  | Broken => false
  end.

(** The last value of a list of optional strings that is neither absent
    nor empty, [start] when there is none. *)
Definition last_set (start : string) (values : list (option string)) : string :=
  foldl (fun acc v => if truthy v then or_empty v else acc) start values.

Definition fragment_name (tc : ToolCallDelta) : option string :=
  match tc_function tc with
  | Some fn => fn_name fn
  | None => None
  end.

(** The argument text of a fragment, and whether the fragment writes
    anything into the record it addresses. *)
Definition fragment_arguments (tc : ToolCallDelta) : option string :=
  match tc_function tc with
  | Some fn => fn_arguments fn
  | None => None
  end.

Definition writes (tc : ToolCallDelta) : bool :=
  truthy (tc_id tc) || truthy (fragment_name tc) || truthy (fragment_arguments tc).

(** A message only the loop appends: a tool message, or an assistant
    message with at least one descriptor, all named, and a text that is
    absent or non-empty. *)
Definition appended_by_loop (m : Message) : bool :=
  match m with
  | Plain _ _ => false
  | Assistant text calls =>
    match calls with [] => false | _ :: _ => true end
    && forallb named calls
    && match text with Some t => nonempty t | None => true end
  | ToolMessage _ _ => true
  end.

(** How many tool messages the message list of a state holds. *)
Definition answered_count (st : State) : nat :=
  length (tool_message_ids (openai_messages st)).

(** Two search terms that differ in letter case at most. *)
Definition same_folded (a b : string) : bool :=
  bool_decide (map Sql.lower (Sql.chars a) = map Sql.lower (Sql.chars b)).

(** The three text columns of a row are all NULL. *)
Definition textless (r : Company) : bool :=
  match company_name r, description r, website_text r with
  | None, None, None => true
  | _, _, _ => false
  end.

(** ** More worked inputs *)

Module MoreExamples.

Import Examples.

(** A turn of text in two chunks, the second with the finish reason. *)
Definition just_text : list (list StreamEvent) :=
  [ [chunk (Some "Hello") [] None; chunk (Some " there") [] (Some "stop")] ].

(** A stream that breaks after its first chunk of text. *)
Definition breaking : list (list StreamEvent) :=
  [ [chunk (Some "Look") [] None; Broken] ].

(** A chunk without choices. *)
Definition no_choice : Chunk := {| choices := [] |}.

(** The chunk that ends [just_text]. *)
Definition last_chunk : Chunk :=
  {| choices := [ {| delta := Some {| content := Some " there"; tool_calls := Some [] |};
                     finish_reason := Some "stop" |} ] |}.

Definition text_part (t : string) : Request.MessagePart :=
  {| Request.type := "text"; Request.text := Some t |}.

Definition image_part : Request.MessagePart :=
  {| Request.type := "image"; Request.text := Some "cat.png" |}.

(** Two lines of the file as [csv.DictReader] returns them. *)
Definition row_acme : Seed.Row :=
  [("Company Name", Some "Acme Pay"); ("Company ID", Some "0042");
   ("City", Some "Boston"); ("Description", Some "Fintech for payroll");
   ("Website URL", Some "https://acme.example"); ("Website Text", Some "Pay people")].

Definition row_signed : Seed.Row :=
  [("Company Name", Some "Minus"); ("Company ID", Some "-5");
   ("City", Some "Oslo"); ("Description", Some "Signed id");
   ("Website URL", Some "https://minus.example"); ("Website Text", Some "None")].

(** A line cut after the company name. *)
Definition row_short : Seed.Row :=
  [("Company Name", Some "Short"); ("Company ID", None);
   ("City", None); ("Description", None);
   ("Website URL", None); ("Website Text", None)].

Definition fresh : Seed.Database := {| Seed.companies := [acme]; Seed.settings := [] |}.

Definition keys : nat -> Z := fun n => (100 + Z.of_nat n)%Z.

(** The quotation mark. *)
Definition quote : string := String "034"%char EmptyString.

(** The arguments of a call that gives no keywords and asks for 2^63
    rows: an object with the one key [limit]. *)
Definition large_limit_arguments : string :=
  "{" ++ quote ++ "limit" ++ quote ++ ": 9223372036854775808}".

(** [json.loads] at that text as well. *)
Definition loads_limit (s : string) : option json :=
  if String.eqb s large_limit_arguments
  then Some (JObj [("limit", JInt 9223372036854775808)])
  else loads s.

(** A turn with one named call that carries those arguments. *)
Definition large_limit_search : list (list StreamEvent) :=
  [ [chunk None [fragment 0 (Some "call_a") (Some "search_startups")
                   (Some large_limit_arguments)]
       (Some "tool_calls")];
    [chunk (Some "Here is the table.") [] (Some "stop")] ].

Definition world_limit : Collaborators :=
  {| SYSTEM_PROMPT := "You are a startup search assistant.";
     json_loads := loads_limit;
     json_dumps := dumps;
     provider := scripted large_limit_search;
     storage := up;
     foreign_search := fun _ _ _ _ => Raise TypeError |}.


End MoreExamples.

(** * Properties *)

(** ** [ILIKE] patterns that wrap a search term *)

Section Like.

Import Sql.

Lemma chars_app (a b : string) : chars (a ++ b) = chars a ++ chars b.
Proof.
  unfold chars. induction a as [|c a IH]; simpl; [reflexivity|].
  by rewrite IH.
Qed.

Lemma chars_wrap (kw : string) : chars (wrap kw) = percent :: chars kw ++ [percent].
Proof. unfold wrap. rewrite !chars_app. reflexivity. Qed.

Lemma lower_plain_char (c : ascii) : plain_char c = true -> plain_char (lower c) = true.
Proof.
  destruct c as [[] [] [] [] [] [] [] []]; vm_compute; intros H; congruence.
Qed.

Lemma lower_plain (p : list ascii) :
  forallb plain_char p = true -> forallb plain_char (map lower p) = true.
Proof.
  induction p as [|c p IH]; simpl; [done|].
  intros [Hc Hp]%andb_prop. rewrite (lower_plain_char c Hc). simpl. auto.
Qed.

Lemma like_percent (p s : list ascii) :
  like_match (percent :: p) s =
  like_match p s || match s with [] => false | _ :: s' => like_match (percent :: p) s' end.
Proof. destruct s; reflexivity. Qed.

Lemma like_plain_char (c : ascii) (p s : list ascii) :
  plain_char c = true ->
  like_match (c :: p) s =
  match s with [] => false | x :: s' => Ascii.eqb c x && like_match p s' end.
Proof.
  unfold plain_char. intros H.
  apply andb_prop in H as [H Hb]. apply andb_prop in H as [Hp Hu].
  apply negb_true_iff in Hp, Hu, Hb.
  cbn [like_match]. rewrite Hp, Hu, Hb. reflexivity.
Qed.

Lemma like_only_percent (s : list ascii) : like_match [percent] s = true.
Proof.
  induction s as [|x s IH]; [reflexivity|].
  rewrite like_percent, IH. apply orb_true_r.
Qed.

(** A plain term followed by [%] matches exactly the texts it is a prefix of. *)
Lemma like_plain_prefix (p s : list ascii) :
  forallb plain_char p = true -> like_match (p ++ [percent]) s = prefix_b p s.
Proof.
  revert s. induction p as [|c p IH]; intros s Hp.
  - apply like_only_percent.
  - simpl in Hp. apply andb_prop in Hp as [Hc Hp].
    rewrite <- app_comm_cons, (like_plain_char _ _ _ Hc).
    destruct s as [|x s]; [reflexivity|]. simpl. by rewrite IH.
Qed.

(** A plain term between two [%] matches exactly the texts it occurs in. *)
Lemma like_plain_infix (p s : list ascii) :
  forallb plain_char p = true ->
  like_match (percent :: p ++ [percent]) s = infix_b p s.
Proof.
  intros Hp. induction s as [|x s IH].
  - rewrite like_percent, (like_plain_prefix _ _ Hp). simpl. reflexivity.
  - rewrite like_percent, (like_plain_prefix _ _ Hp), IH. reflexivity.
Qed.

Lemma ilike_plain (kw : string) (column : option string) :
  plain kw = true ->
  selected (ilike column (wrap kw)) = occurs_ci kw column.
Proof.
  intros Hp. destruct column as [text|]; [|reflexivity].
  unfold ilike, occurs_ci, selected.
  rewrite chars_wrap. simpl map. rewrite map_app. simpl map.
  change (lower percent) with percent.
  rewrite like_plain_infix by (apply lower_plain, Hp).
  by destruct (infix_b _ _).
Qed.

(** What the two executable tests mean. *)
Lemma prefix_b_spec (p s : list ascii) :
  prefix_b p s = true <-> exists post, s = p ++ post.
Proof.
  revert s. induction p as [|c p IH]; intros s; simpl.
  - split; [eauto|done].
  - destruct s as [|x s].
    + split; [done|]. intros [post H]. discriminate.
    + rewrite andb_true_iff, IH. split.
      * intros [Hc [post ->]]. apply Ascii.eqb_eq in Hc as ->. eauto.
      * intros [post H]. injection H as -> ->. split; [apply Ascii.eqb_refl|eauto].
Qed.

Lemma infix_b_spec (p s : list ascii) :
  infix_b p s = true <-> exists pre post, s = pre ++ p ++ post.
Proof.
  induction s as [|x s IH]; simpl.
  - rewrite orb_false_r, prefix_b_spec. split.
    + intros [post H]. exists [], post. done.
    + intros [pre [post H]]. destruct pre; [eauto|discriminate].
  - rewrite orb_true_iff, prefix_b_spec, IH. split.
    + intros [[post H]|[pre [post H]]].
      * exists [], post. done.
      * exists (x :: pre), post. by rewrite H.
    + intros [pre [post H]]. destruct pre as [|y pre].
      * left. eauto.
      * right. injection H as -> ->. eauto.
Qed.

(** X8. The pattern [f"%{kw}%"] never ends in a backslash that escapes
    nothing, whatever the term: the one pattern error of [LIKE] cannot
    come from a search term. *)
Lemma wrapped_pattern_ends_well (kw : string) :
  dangling_escape (chars (wrap kw)) = false.
Proof.
  rewrite chars_wrap. change (dangling_escape (chars kw ++ [percent]) = false).
  assert (H : forall p, dangling_escape (p ++ [percent]) = false
                        /\ forall c, dangling_escape (c :: p ++ [percent]) = false).
  { induction p as [|d p [IH1 IH2]].
    - split; [reflexivity|]. intros c. simpl. by destruct (Ascii.eqb c backslash).
    - split; [apply IH2|]. intros c. simpl.
      destruct (Ascii.eqb c backslash); [apply IH1|apply IH2]. }
  apply H.
Qed.

End Like.

(** ** The tool executor *)

Section Executor.

Lemma filter_ext_bool {A : Type} (f g : A -> bool) (l : list A) :
  (forall x, f x = g x) -> List.filter f l = List.filter g l.
Proof.
  intros H. induction l as [|x l IH]; [reflexivity|].
  simpl. by rewrite H, IH.
Qed.

Lemma selected_or (a b : option bool) :
  Sql.selected (Sql.or a b) = Sql.selected a || Sql.selected b.
Proof. by destruct a as [[]|], b as [[]|]. Qed.

Lemma selected_and (a b : option bool) :
  Sql.selected (Sql.and a b) = Sql.selected a && Sql.selected b.
Proof. by destruct a as [[]|], b as [[]|]. Qed.

Lemma selected_or_ (conditions : list (option bool)) :
  Sql.selected (Sql.or_ conditions) = existsb Sql.selected conditions.
Proof.
  induction conditions as [|c rest IH]; [reflexivity|].
  destruct rest as [|c' rest].
  - simpl. by rewrite orb_false_r.
  - change (Sql.or_ (c :: c' :: rest)) with (Sql.or c (Sql.or_ (c' :: rest))).
    rewrite selected_or, IH. reflexivity.
Qed.

(** The [WHERE] clause is the conjunction of the two stages. *)
Lemma where_clause_stages (keywords : list string) (city_arg : option string) (r : Company) :
  where_clause keywords city_arg r = passes_keywords keywords r && passes_city city_arg r.
Proof. apply selected_and. Qed.

Lemma keyword_condition_plain (kw : string) (r : Company) :
  plain kw = true ->
  Sql.selected (keyword_condition kw r) =
  occurs_ci kw (company_name r) || occurs_ci kw (description r) || occurs_ci kw (website_text r).
Proof.
  intros Hp. unfold keyword_condition. rewrite selected_or_. simpl.
  rewrite !(ilike_plain _ _ Hp), orb_false_r, orb_assoc. reflexivity.
Qed.

(** With plain keywords the keyword stage is substring search. *)
Lemma passes_keywords_plain (keywords : list string) (r : Company) :
  forallb plain keywords = true -> keywords <> [] ->
  passes_keywords keywords r = some_keyword_occurs keywords r.
Proof.
  intros Hp Hne. unfold passes_keywords, keyword_stage, some_keyword_occurs.
  destruct keywords as [|k ks]; [done|].
  rewrite selected_or_. clear Hne. induction (k :: ks) as [|kw l IH]; [reflexivity|].
  cbn [forallb] in Hp. apply andb_prop in Hp as [Hkw Hl].
  cbn [map existsb]. rewrite (keyword_condition_plain _ _ Hkw), (IH Hl). reflexivity.
Qed.

(** With plain, non-empty keywords the rows returned are the first
    [limit] rows in which some keyword occurs and which pass the city
    stage. *)
Lemma search_rows_plain (table : list Company) (keywords : list string)
    (city_arg : option string) (limit : nat) :
  forallb plain keywords = true -> keywords <> [] ->
  search_rows table keywords city_arg limit =
  take limit (List.filter (fun r => some_keyword_occurs keywords r && passes_city city_arg r)
                          table).
Proof.
  intros Hp Hne. unfold search_rows. f_equal. apply filter_ext_bool. intros r.
  by rewrite where_clause_stages, (passes_keywords_plain _ _ Hp Hne).
Qed.

Lemma passes_keywords_empty (r : Company) : passes_keywords [] r = true.
Proof. reflexivity. Qed.

Lemma passes_city_absent (r : Company) :
  passes_city None r = true /\ passes_city (Some EmptyString) r = true.
Proof. split; reflexivity. Qed.

Lemma passes_city_plain (c : string) (r : Company) :
  nonempty c = true -> plain c = true ->
  passes_city (Some c) r = occurs_ci c (city r).
Proof.
  intros Hc Hp. unfold passes_city, city_stage. rewrite Hc. by apply ilike_plain.
Qed.

Lemma In_take {A : Type} (x : A) (n : nat) (l : list A) : In x (take n l) -> In x l.
Proof. rewrite <- !list_elem_of_In. apply subseteq_take. Qed.

(** Every returned dict comes from a row of the table that the [WHERE]
    clause selects. *)
Lemma search_startups_row (table : list Company) (keywords : list string)
    (city_arg : option string) (limit : nat) (res : SearchResult) :
  In res (search_startups table keywords city_arg limit) ->
  exists row, In row table /\ res = to_result row
              /\ passes_keywords keywords row = true
              /\ passes_city city_arg row = true.
Proof.
  unfold search_startups, search_rows. intros H.
  apply in_map_iff in H as [row [<- H]].
  apply In_take, filter_In in H as [Hin Hw].
  rewrite where_clause_stages in Hw. apply andb_prop in Hw as [Hk Hc].
  eauto.
Qed.

Lemma search_startups_length (table : list Company) (keywords : list string)
    (city_arg : option string) (limit : nat) :
  length (search_startups table keywords city_arg limit) <= limit.
Proof.
  unfold search_startups, search_rows. rewrite length_map, length_take. lia.
Qed.

Lemma substring_prefix_length (n : nat) (s : string) :
  String.length (substring 0 n s) <= n.
Proof.
  revert s. induction n as [|n IH]; intros s.
  - destruct s; simpl; lia.
  - destruct s as [|c s]; simpl; [lia|]. specialize (IH s). lia.
Qed.

(** The truncated description is the first characters of the stored one,
    with nothing added. *)
Lemma substring_prefix (n : nat) (s : string) :
  exists rest, s = (substring 0 n s ++ rest)%string.
Proof.
  revert s. induction n as [|n IH]; intros s.
  - exists s. by destruct s.
  - destruct s as [|c s]; simpl; [by exists EmptyString|].
    destruct (IH s) as [rest H]. exists rest.
    change (String c s = String c (substring 0 n s ++ rest)%string). by f_equal.
Qed.

(** The part of the result shape that holds of every row: the description
    is cut to 300 characters with nothing appended, and description, URL
    and city fall back to the empty string. *)
Lemma to_result_defaults (row : Company) :
  String.length (r_description (to_result row)) <= 300
  /\ (exists rest, or_empty (description row) = (r_description (to_result row) ++ rest)%string)
  /\ r_website_url (to_result row) = or_empty (website_url row)
  /\ r_city (to_result row) = or_empty (city row)
  /\ r_company_name (to_result row) = company_name row.
Proof.
  repeat split.
  - apply substring_prefix_length.
  - apply substring_prefix.
Qed.

(** C5 (as amended). For keywords free of the [LIKE] characters [%], [_]
    and backslash: at most [limit] results are returned; each comes from a
    stored row in which, when the keyword list is non-empty, some keyword
    occurs as a case-insensitive substring of the name, the description or
    the website text; and with an empty keyword list every row passes the
    keyword stage. *)
Theorem search_startups_plain_keywords (table : list Company) (keywords : list string)
    (city_arg : option string) (limit : nat) :
  forallb plain keywords = true ->
  length (search_startups table keywords city_arg limit) <= limit
  /\ (forall res, In res (search_startups table keywords city_arg limit) ->
        exists row, In row table /\ res = to_result row
                    /\ (keywords <> [] -> some_keyword_occurs keywords row = true))
  /\ (keywords = [] -> forall row, passes_keywords keywords row = true).
Proof.
  intros Hp. split; [apply search_startups_length|]. split.
  - intros res H. apply search_startups_row in H as [row (Hin & Hres & Hk & _)].
    exists row. split; [done|]. split; [done|]. intros Hne.
    by rewrite <- (passes_keywords_plain _ _ Hp Hne).
  - intros -> row. reflexivity.
Qed.

(** C6 (as amended). For a non-empty city free of the [LIKE] characters
    [%], [_] and backslash, every result comes from a row that passes the
    keyword stage and whose city, which the result carries unchanged,
    contains the query city as a case-insensitive substring; with the city
    absent or empty, rows are filtered by the keyword stage alone. *)
Theorem search_startups_plain_city (table : list Company) (keywords : list string)
    (c : string) (limit : nat) :
  nonempty c = true -> plain c = true ->
  (forall res, In res (search_startups table keywords (Some c) limit) ->
     exists row, In row table /\ res = to_result row
                 /\ passes_keywords keywords row = true
                 /\ occurs_ci c (city row) = true
                 /\ occurs_ci c (Some (r_city res)) = true)
  /\ search_rows table keywords None limit
     = take limit (List.filter (passes_keywords keywords) table)
  /\ search_rows table keywords (Some EmptyString) limit
     = take limit (List.filter (passes_keywords keywords) table).
Proof.
  intros Hc Hp. split; [|split].
  - intros res H. apply search_startups_row in H as [row (Hin & Hres & Hk & Hcity)].
    rewrite (passes_city_plain _ _ Hc Hp) in Hcity.
    exists row. repeat (split; [done|]).
    subst res. simpl. destruct (city row); [done|discriminate].
  - unfold search_rows. f_equal. apply filter_ext_bool. intros r.
    rewrite where_clause_stages. apply andb_true_r.
  - unfold search_rows. f_equal. apply filter_ext_bool. intros r.
    rewrite where_clause_stages. apply andb_true_r.
Qed.

End Executor.

(** ** The delta accumulator *)

Section Accumulator.

Lemma append_empty_r (s : string) : (s ++ EmptyString)%string = s.
Proof.
  induction s as [|c s IH]; [reflexivity|].
  change (String c (s ++ EmptyString)%string = String c s). by rewrite IH.
Qed.

Lemma append_assoc (a b c : string) : ((a ++ b) ++ c)%string = (a ++ (b ++ c))%string.
Proof.
  induction a as [|x a IH]; [reflexivity|].
  change (String x ((a ++ b) ++ c)%string = String x (a ++ (b ++ c))%string).
  by rewrite IH.
Qed.

Lemma concat_chunks_app (a b : list string) :
  concat_chunks (a ++ b) = (concat_chunks a ++ concat_chunks b)%string.
Proof.
  induction a as [|s a IH]; [reflexivity|].
  simpl. unfold concat_chunks in *. simpl. by rewrite IH, append_assoc.
Qed.

Lemma merge_arguments (tc : ToolCallDelta) (c : ToolCall) :
  call_arguments (merge tc c) = (call_arguments c ++ chunk_of tc)%string.
Proof.
  unfold merge, chunk_of.
  destruct (tc_id tc) as [v|]; [destruct (nonempty v)|];
    (destruct (tc_function tc) as [fn|]; [|by rewrite append_empty_r]);
    (destruct (fn_name fn) as [w|]; [destruct (nonempty w)|]);
    (destruct (fn_arguments fn) as [[|x a]|]; simpl; by rewrite ?append_empty_r).
Qed.

Lemma length_pad (calls : list ToolCall) (i : Z) :
  length (pad calls i) = Nat.max (length calls) (Z.to_nat (i + 1)).
Proof. unfold pad. rewrite length_app, length_replicate. lia. Qed.

Lemma record_at_pad (calls : list ToolCall) (i : Z) (j : nat) :
  record_at (pad calls i) j = record_at calls j.
Proof.
  unfold record_at, pad. destruct (decide (j < length calls)) as [Hj|Hj].
  - by rewrite lookup_app_l.
  - rewrite lookup_app_r by lia. rewrite (lookup_ge_None_2 calls j) by lia.
    destruct (replicate _ _ !! _) as [c|] eqn:Hc; [|reflexivity].
    apply lookup_replicate in Hc as [-> _]. reflexivity.
Qed.

Lemma slot_in_range (len : nat) (i : Z) :
  (0 <= i)%Z -> (i < Z.of_nat len)%Z -> slot len i = Some (Z.to_nat i).
Proof.
  intros H0 H1. unfold slot.
  rewrite (proj2 (Z.leb_le 0 i) H0), (proj2 (Z.ltb_lt _ _) H1). reflexivity.
Qed.

Lemma update_if_in_range (value : option string) (i : Z)
    (f : string -> ToolCall -> ToolCall) (calls : list ToolCall) :
  (0 <= i)%Z -> (i < Z.of_nat (length calls))%Z ->
  update_if value i f calls =
  Ok (alter (fun c => match value with
                      | Some v => if nonempty v then f v c else c
                      | None => c
                      end) (Z.to_nat i) calls).
Proof.
  intros H0 H1. unfold update_if, update_at.
  destruct value as [v|]; [destruct (nonempty v)|];
    rewrite ?(slot_in_range _ _ H0 H1); try reflexivity;
    by rewrite list_alter_id.
Qed.

(** A fragment with a non-negative index never raises: it pads the list
    and merges into the record it addresses. *)
Lemma accumulate_from_zero (calls : list ToolCall) (tc : ToolCallDelta) (i : Z) :
  tc_index tc = Some i -> (0 <= i)%Z ->
  accumulate calls tc = Ok (alter (merge tc) (Z.to_nat i) (pad calls i)).
Proof.
  intros Hi H0. unfold accumulate. rewrite Hi.
  assert (Hlen : (i < Z.of_nat (length (pad calls i)))%Z) by (rewrite length_pad; lia).
  rewrite (update_if_in_range _ _ _ _ H0 Hlen). cbn [bind_result].
  destruct (tc_function tc) as [fn|] eqn:Hfn.
  - rewrite update_if_in_range by (rewrite ?length_alter; done). cbn [bind_result].
    rewrite update_if_in_range by (rewrite ?length_alter; done).
    rewrite !list_alter_alter_eq. f_equal. apply list_alter_ext; [|done].
    intros c _. unfold merge. rewrite Hfn. reflexivity.
  - f_equal. apply list_alter_ext; [|done].
    intros c _. unfold merge. rewrite Hfn. reflexivity.
Qed.

Lemma accumulate_without_index (calls : list ToolCall) (tc : ToolCallDelta) :
  tc_index tc = None -> accumulate calls tc = Ok calls.
Proof. intros H. unfold accumulate. by rewrite H. Qed.

Lemma record_at_alter (f : ToolCall -> ToolCall) (calls : list ToolCall) (i j : nat) :
  i < length calls ->
  record_at (alter f i calls) j = if decide (i = j) then f (record_at calls j) else record_at calls j.
Proof.
  intros Hi. unfold record_at. rewrite list_lookup_alter.
  case_decide; [subst j|reflexivity].
  destruct (lookup_lt_is_Some_2 calls i Hi) as [c Hc]. by rewrite Hc.
Qed.

(** One fragment: the list grows to cover its index, the record it
    addresses is merged into, every other record reads as before. *)
Lemma accumulate_step (calls : list ToolCall) (tc : ToolCallDelta) (i : Z) :
  tc_index tc = Some i -> (0 <= i)%Z ->
  exists calls',
    accumulate calls tc = Ok calls'
    /\ length calls' = Nat.max (length calls) (Z.to_nat (i + 1))
    /\ forall j, record_at calls' j =
                 if decide (Z.to_nat i = j) then merge tc (record_at calls j)
                 else record_at calls j.
Proof.
  intros Hi H0. eexists. split; [by apply accumulate_from_zero|].
  split; [by rewrite length_alter, length_pad|].
  intros j. rewrite record_at_alter by (rewrite length_pad; lia).
  by rewrite record_at_pad.
Qed.

Lemma merged_arguments (j : nat) (tcs : list ToolCallDelta) (c : ToolCall) :
  call_arguments (merged j tcs c) =
  (call_arguments c
     ++ concat_chunks (map chunk_of (List.filter (carries (Z.of_nat j)) tcs)))%string.
Proof.
  unfold merged. generalize (List.filter (carries (Z.of_nat j)) tcs) as l.
  intros l. revert c. induction l as [|tc l IH]; intros c; simpl.
  - by rewrite append_empty_r.
  - rewrite IH, merge_arguments, append_assoc. reflexivity.
Qed.

Lemma merged_cons (j : nat) (tc : ToolCallDelta) (tcs : list ToolCallDelta) (c : ToolCall) :
  merged j (tc :: tcs) c =
  merged j tcs (if carries (Z.of_nat j) tc then merge tc c else c).
Proof. unfold merged. simpl. by destruct (carries (Z.of_nat j) tc). Qed.

Lemma extent_cons (tc : ToolCallDelta) (tcs : list ToolCallDelta) :
  extent (tc :: tcs) =
  match tc_index tc with
  | Some i => Nat.max (extent tcs) (Z.to_nat (i + 1))
  | None => extent tcs
  end.
Proof. reflexivity. Qed.

(** A whole turn of fragments, none with a negative index: the loop does
    not raise, the list has one record for each position up to the largest
    index, and each record is the merge of the fragments addressed to it. *)
Lemma accumulate_all_from_zero (tcs : list ToolCallDelta) (calls : list ToolCall) :
  indexed_from_zero tcs = true ->
  exists calls',
    accumulate_all calls tcs = Ok calls'
    /\ length calls' = Nat.max (length calls) (extent tcs)
    /\ forall j, record_at calls' j = merged j tcs (record_at calls j).
Proof.
  revert calls. induction tcs as [|tc tcs IH]; intros calls Hz.
  - exists calls. split; [reflexivity|]. split; [simpl; lia|]. reflexivity.
  - cbn [indexed_from_zero forallb] in Hz. apply andb_prop in Hz as [Htc Hz].
    destruct (tc_index tc) as [i|] eqn:Hi.
    + apply Z.leb_le in Htc.
      destruct (accumulate_step calls tc i Hi Htc) as (calls1 & Hacc & Hlen & Hrec).
      destruct (IH calls1 Hz) as (calls' & Hall & Hlen' & Hrec').
      exists calls'. split; [|split].
      * cbn [accumulate_all]. rewrite Hacc. exact Hall.
      * rewrite Hlen', Hlen, extent_cons, Hi. lia.
      * intros j. rewrite Hrec', Hrec, merged_cons. unfold carries. rewrite Hi.
        case_decide as Hj.
        -- subst j. rewrite Z2Nat.id by done. rewrite Z.eqb_refl. reflexivity.
        -- destruct (Z.eqb_spec i (Z.of_nat j)) as [->|_]; [|reflexivity].
           rewrite Nat2Z.id in Hj. done.
    + destruct (IH calls Hz) as (calls' & Hall & Hlen' & Hrec').
      exists calls'. split; [|split].
      * cbn [accumulate_all]. rewrite (accumulate_without_index _ _ Hi). exact Hall.
      * rewrite Hlen', extent_cons, Hi. reflexivity.
      * intros j. rewrite Hrec', merged_cons. unfold carries. rewrite Hi. reflexivity.
Qed.

Lemma lookup_record_at (calls : list ToolCall) (j : nat) :
  j < length calls -> calls !! j = Some (record_at calls j).
Proof.
  intros Hj. unfold record_at.
  destruct (lookup_lt_is_Some_2 calls j Hj) as [c Hc]. by rewrite Hc.
Qed.

Lemma record_at_beyond (calls : list ToolCall) (j : nat) :
  length calls <= j -> record_at calls j = empty_call.
Proof. intros Hj. unfold record_at. by rewrite lookup_ge_None_2. Qed.

Lemma filter_none {A : Type} (f : A -> bool) (l : list A) :
  (forall x, In x l -> f x = false) -> List.filter f l = [].
Proof.
  induction l as [|x l IH]; intros H; [reflexivity|].
  simpl. rewrite (H x) by (by left). apply IH. intros y Hy. apply H. by right.
Qed.

Lemma indexed_from_zero_app (a b : list ToolCallDelta) :
  indexed_from_zero (a ++ b) = indexed_from_zero a && indexed_from_zero b.
Proof. apply forallb_app. Qed.

(** The arguments of the record at [j] after a turn of fragments: the
    texts of the fragments that carry [j], joined in arrival order. *)
Lemma accumulated_arguments (tcs : list ToolCallDelta) (j : nat) :
  indexed_from_zero tcs = true ->
  exists calls,
    accumulate_all [] tcs = Ok calls
    /\ length calls = extent tcs
    /\ call_arguments (record_at calls j)
       = concat_chunks (map chunk_of (List.filter (carries (Z.of_nat j)) tcs)).
Proof.
  intros Hz.
  destruct (accumulate_all_from_zero tcs [] Hz) as (calls & Hacc & Hlen & Hrec).
  exists calls. split; [done|]. split; [by rewrite Hlen|].
  rewrite Hrec, merged_arguments. reflexivity.
Qed.

Lemma extent_carried (i : Z) (tcs : list ToolCallDelta) :
  (0 <= i)%Z -> (exists tc, In tc tcs /\ carries i tc = true) ->
  Z.to_nat i < extent tcs.
Proof.
  intros H0 (tc & Hin & Hc). induction tcs as [|tc' tcs IH]; [done|].
  rewrite extent_cons. destruct Hin as [->|Hin].
  - unfold carries in Hc. destruct (tc_index tc) as [k|]; [|done].
    apply Z.eqb_eq in Hc as ->. lia.
  - specialize (IH Hin). destruct (tc_index tc'); lia.
Qed.

(** C2. In a turn of fragments with non-negative indices, take the
    fragments that carry index [i], however they are interleaved with
    those of other indices. The arguments of the record at [i] are their
    argument texts in arrival order, joined end to end; what has
    accumulated after any first part of the turn stays as the beginning of
    the final text; and one fragment that carries the whole text leaves
    the same arguments, which any parser therefore reads alike. *)
Theorem arguments_concatenate (i : Z) (tcs : list ToolCallDelta) :
  (0 <= i)%Z -> indexed_from_zero tcs = true ->
  (exists tc, In tc tcs /\ carries i tc = true) ->
  let text := concat_chunks (map chunk_of (List.filter (carries i) tcs)) in
  exists streamed whole,
    accumulate_all [] tcs = Ok streamed
    /\ accumulate_all [] [arguments_fragment i text] = Ok whole
    /\ call_arguments <$> streamed !! Z.to_nat i = Some text
    /\ call_arguments <$> whole !! Z.to_nat i = Some text
    /\ (forall loads : string -> option json,
          (call_arguments <$> streamed !! Z.to_nat i) ≫= loads
          = (call_arguments <$> whole !! Z.to_nat i) ≫= loads)
    /\ (forall before after, tcs = before ++ after ->
          exists partial,
            accumulate_all [] before = Ok partial
            /\ text = (call_arguments (record_at partial (Z.to_nat i))
                         ++ concat_chunks (map chunk_of (List.filter (carries i) after)))%string).
Proof.
  intros H0 Hz Hsome text.
  destruct (accumulated_arguments tcs (Z.to_nat i) Hz) as (streamed & Hacc & Hlen & Hargs).
  rewrite Z2Nat.id in Hargs by done. fold text in Hargs.
  assert (Hz1 : indexed_from_zero [arguments_fragment i text] = true).
  { simpl. rewrite andb_true_r. by apply Z.leb_le. }
  destruct (accumulated_arguments _ (Z.to_nat i) Hz1) as (whole & Hacc' & Hlen' & Hargs').
  rewrite Z2Nat.id in Hargs' by done.
  assert (Hs : call_arguments <$> streamed !! Z.to_nat i = Some text).
  { rewrite lookup_record_at by (rewrite Hlen; by apply extent_carried).
    simpl. by rewrite Hargs. }
  assert (Hw : call_arguments <$> whole !! Z.to_nat i = Some text).
  { rewrite lookup_record_at.
    - simpl. rewrite Hargs'. simpl. unfold carries. simpl. rewrite Z.eqb_refl.
      simpl. unfold concat_chunks. simpl. by rewrite append_empty_r.
    - rewrite Hlen'. apply extent_carried; [done|].
      eexists. split; [by left|]. unfold carries. simpl. apply Z.eqb_refl. }
  exists streamed, whole. repeat (split; [done|]). split.
  - intros loads. by rewrite Hs, Hw.
  - intros before after Htcs.
    assert (Hb : indexed_from_zero before = true).
    { rewrite Htcs, indexed_from_zero_app in Hz. by apply andb_prop in Hz as [-> _]. }
    destruct (accumulated_arguments before (Z.to_nat i) Hb) as (partial & Hp & _ & Hpa).
    rewrite Z2Nat.id in Hpa by done.
    exists partial. split; [done|].
    rewrite Hpa. unfold text. by rewrite Htcs, List.filter_app, map_app, concat_chunks_app.
Qed.

End Accumulator.

(** ** The agent loop *)

Section AgentProperties.

Variable env : Collaborators.

Ltac step := unfold bind, ret, raise, lift, yield, append_message; simpl.

Lemma run_tool_call_unnamed (tc : ToolCall) (st : State) :
  named tc = false -> run_tool_call env tc st = (Ok tt, st).
Proof. unfold named, run_tool_call. by intros ->. Qed.

Lemma run_tool_call_outcome (tc : ToolCall) (st : State) :
  call_outcome tc st (run_tool_call env tc st).1 (run_tool_call env tc st).2.
Proof.
  destruct (named tc) eqn:Hn.
  - unfold run_tool_call. unfold named in Hn. rewrite Hn. step.
    destruct (load_arguments env (call_arguments tc)) as [args|e];
      [|by apply call_rejected].
    destruct (iterate_strings _) as [keywords|e]; [|by apply call_rejected].
    unfold call_search. simpl.
    repeat case_match; simplify_eq/=;
      (by apply call_answered) || (by apply call_failed).
  - rewrite run_tool_call_unnamed by done. by apply call_skipped.
Qed.

Lemma run_tool_calls_cons (tc : ToolCall) (rest : list ToolCall) (st : State) :
  run_tool_calls env (tc :: rest) st =
  match run_tool_call env tc st with
  | (Ok _, st') => run_tool_calls env rest st'
  | (Raise e, st') => (Raise e, st')
  end.
Proof. reflexivity. Qed.

Lemma run_tool_calls_app (before after : list ToolCall) (st : State) :
  run_tool_calls env (before ++ after) st =
  match run_tool_calls env before st with
  | (Ok _, st') => run_tool_calls env after st'
  | (Raise e, st') => (Raise e, st')
  end.
Proof.
  revert st. induction before as [|tc before IH]; intros st; [reflexivity|].
  rewrite <- app_comm_cons, !run_tool_calls_cons.
  destruct (run_tool_call env tc st) as [[[]|e] st']; [apply IH|reflexivity].
Qed.

(** The stream loop only yields: messages and counters stay as they were. *)
Lemma handle_content_state (d : ChoiceDelta) (collected : string) (st : State) :
  exists collected' st1,
    handle_content d collected st = (Ok collected', st1)
    /\ openai_messages st1 = openai_messages st
    /\ invocations st1 = invocations st
    /\ queries st1 = queries st
    /\ exists chunks, yielded st1 = yielded st ++ chunks.
Proof.
  unfold handle_content. destruct (content d) as [text|];
    [destruct (nonempty text)|]; step; do 2 eexists;
    (split; [reflexivity|]); simpl; repeat split;
    try (exists []; by rewrite app_nil_r); eauto.
Qed.

Lemma consume_state (stream : list StreamEvent) (collected : string)
    (calls : list ToolCall) (st st' : State) (r : result (string * list ToolCall)) :
  consume stream collected calls st = (r, st') ->
  openai_messages st' = openai_messages st
  /\ invocations st' = invocations st
  /\ queries st' = queries st
  /\ exists chunks, yielded st' = yielded st ++ chunks.
Proof.
  revert collected calls st.
  induction stream as [|event rest IH]; intros collected calls st H.
  { injection H as _ <-. repeat split. exists []. by rewrite app_nil_r. }
  destruct event as [chunk|];
    [|injection H as _ <-; repeat split; exists []; by rewrite app_nil_r].
  cbn [consume] in H. destruct (first_choice chunk) as [choice|]; [|by eapply IH].
  destruct (delta choice) as [d|]; [|by eapply IH].
  destruct (handle_content_state d collected st)
    as (collected' & st1 & Hh & Hm & Hi & Hq & chunks & Hy).
  unfold bind, lift in H. rewrite Hh in H.
  destruct (handle_tool_calls d calls) as [calls'|e].
  - destruct (truthy (finish_reason choice)).
    + injection H as _ <-. repeat split; eauto.
    + apply IH in H as (Hm' & Hi' & Hq' & chunks' & Hy').
      rewrite Hm', Hi', Hq', Hy', Hy. repeat split; try done.
      exists (chunks ++ chunks'). by rewrite app_assoc.
  - injection H as _ <-. repeat split; eauto.
Qed.

Lemma receive_state (st st' : State) (r : result (string * list ToolCall)) :
  receive env st = (r, st') ->
  openai_messages st' = openai_messages st
  /\ invocations st' = S (invocations st)
  /\ queries st' = queries st
  /\ exists chunks, yielded st' = yielded st ++ chunks.
Proof.
  unfold receive, bind, invoke_model. intros H.
  apply consume_state in H. exact H.
Qed.

(** *** What one call does *)

Lemma load_arguments_raises (arguments : string) (e : exn) :
  load_arguments env arguments = Raise e <->
  (json_loads env arguments = None /\ e = JSONDecodeError)
  \/ (exists v, json_loads env arguments = Some v
                /\ (forall fields, v <> JObj fields) /\ e = AttributeError).
Proof.
  unfold load_arguments. destruct (json_loads env arguments) as [v|].
  - destruct v; split; intros H; simplify_eq;
      try (right; eexists; by repeat split);
      try (destruct H as [[[=] _]|(v & [=<-] & Hv & ->)]; try done;
           by destruct (Hv fields)).
  - split; [intros [=<-]; by left|]. intros [[_ ->]|(v & [=] & _)]. done.
Qed.

Lemma run_tool_call_rejected (tc : ToolCall) (st : State) (e : exn) :
  named tc = true ->
  load_arguments env (call_arguments tc) = Raise e ->
  run_tool_call env tc st = (Raise e, st).
Proof.
  unfold named, run_tool_call. intros -> H. unfold bind, lift. by rewrite H.
Qed.

Lemma run_tool_call_keywords_rejected (tc : ToolCall) (st : State)
    (fields : list (string * json)) (e : exn) :
  named tc = true ->
  load_arguments env (call_arguments tc) = Ok fields ->
  iterate_strings (default (JArr []) (dict_get "keywords" fields)) = Raise e ->
  run_tool_call env tc st = (Raise e, st).
Proof.
  unfold named, run_tool_call. intros -> Hl Hk. unfold bind, lift. by rewrite Hl, Hk.
Qed.

Lemma run_tool_call_search (tc : ToolCall) (st : State) (fields : list (string * json))
    (keywords : list string) (city_arg : option string) (limit : nat) :
  named tc = true ->
  load_arguments env (call_arguments tc) = Ok fields ->
  iterate_strings (default (JArr []) (dict_get "keywords" fields)) = Ok keywords ->
  typed_city (dict_get "city" fields) = Some city_arg ->
  typed_limit (dict_get "limit" fields) = Some limit ->
  run_tool_call env tc st =
  match storage env (queries st) with
  | Some table =>
    (Ok tt,
     {| openai_messages := openai_messages st ++
          [ToolMessage (call_id tc)
             (json_dumps env (search_startups table keywords city_arg limit))];
        yielded := yielded st ++ [notice keywords];
        invocations := invocations st;
        queries := S (queries st) |})
  | None =>
    (Raise StorageError,
     {| openai_messages := openai_messages st;
        yielded := yielded st ++ [notice keywords];
        invocations := invocations st;
        queries := S (queries st) |})
  end.
Proof.
  unfold named, run_tool_call. intros -> Hl Hk Hc Hn.
  unfold bind, lift. rewrite Hl, Hk. unfold yield, call_search. simpl.
  rewrite Hc, Hn. by destruct (storage env (queries st)).
Qed.

(** *** What a list of calls does *)

(** The tool messages a run of calls appends answer, one each and in
    order, the named records it got through: all of them when it ends
    well, fewer when a call raises. *)
Lemma run_tool_calls_messages (calls : list ToolCall) (st st' : State) (r : result unit) :
  run_tool_calls env calls st = (r, st') ->
  exists added answered pending,
    openai_messages st' = openai_messages st ++ added
    /\ Forall2 (fun m tc => exists text, m = ToolMessage (call_id tc) text) added answered
    /\ List.filter named calls = answered ++ pending
    /\ invocations st' = invocations st
    /\ match r with
       | Ok _ => pending = [] /\ queries st' = queries st + length answered
       | Raise _ => pending <> []
       end.
Proof.
  revert st. induction calls as [|tc rest IH]; intros st H.
  { injection H as <- <-. exists [], [], []. rewrite app_nil_r.
    repeat split; [constructor|simpl; lia]. }
  rewrite run_tool_calls_cons in H.
  pose proof (run_tool_call_outcome tc st) as Ho.
  destruct (run_tool_call env tc st) as [r1 st1]. simpl in Ho.
  destruct Ho as [Hn|keywords text Hn|e Hn|e keywords Hn].
  - apply IH in H as (added & answered & pending & Hm & Hf & Hfilter & Hi & Hr).
    exists added, answered, pending. simpl. rewrite Hn. done.
  - apply IH in H as (added & answered & pending & Hm & Hf & Hfilter & Hi & Hr).
    simpl in *. exists (ToolMessage (call_id tc) text :: added), (tc :: answered), pending.
    rewrite Hn, Hfilter, Hm, <- app_assoc. repeat split; try done.
    + constructor; eauto.
    + destruct r; [|done]. destruct Hr as [-> ->]. split; [done|simpl; lia].
  - injection H as <- <-. exists [], [], (List.filter named (tc :: rest)).
    rewrite app_nil_r. repeat split; [constructor|]. simpl. by rewrite Hn.
  - injection H as <- <-. exists [], [], (List.filter named (tc :: rest)).
    simpl. rewrite app_nil_r. repeat split; [constructor|]. by rewrite Hn.
Qed.

(** *** What a pass of the loop does *)

(** The pass goes on exactly when the first record has a name. *)
Lemma turn_breaks (st st1 : State) (collected : string) (calls : list ToolCall)
    (fuel : nat) :
  receive env st = (Ok (collected, calls), st1) ->
  has_tool_calls calls = false ->
  agent_loop env (S fuel) st = (Ok Finished, st1).
Proof.
  intros Hr Hg. cbn [agent_loop]. unfold bind, turn. unfold bind. rewrite Hr. simpl.
  by rewrite Hg.
Qed.

Lemma turn_continues (st st1 st2 : State) (collected : string) (calls : list ToolCall)
    (fuel : nat) :
  receive env st = (Ok (collected, calls), st1) ->
  has_tool_calls calls = true ->
  run_tool_calls env calls (append_message (assistant_message collected calls) st1).2
    = (Ok tt, st2) ->
  agent_loop env (S fuel) st = agent_loop env fuel st2.
Proof.
  intros Hr Hg Hrun. cbn [agent_loop]. unfold bind, turn. unfold bind. rewrite Hr. simpl.
  rewrite Hg. simpl in Hrun. by rewrite Hrun.
Qed.

Lemma turn_aborts (st st1 st2 : State) (collected : string) (calls : list ToolCall)
    (fuel : nat) (e : exn) :
  receive env st = (Ok (collected, calls), st1) ->
  has_tool_calls calls = true ->
  run_tool_calls env calls (append_message (assistant_message collected calls) st1).2
    = (Raise e, st2) ->
  agent_loop env (S fuel) st = (Raise e, st2).
Proof.
  intros Hr Hg Hrun. cbn [agent_loop]. unfold bind, turn. unfold bind. rewrite Hr. simpl.
  rewrite Hg. simpl in Hrun. by rewrite Hrun.
Qed.

(** When the first record has a name and no call raises, the pass appends
    the assistant message and then one tool message for each named record,
    in index order, before the model is called again. *)
Lemma turn_answers_named_calls (st st1 st2 : State) (collected : string)
    (calls : list ToolCall) :
  receive env st = (Ok (collected, calls), st1) ->
  has_tool_calls calls = true ->
  run_tool_calls env calls (append_message (assistant_message collected calls) st1).2
    = (Ok tt, st2) ->
  exists added,
    openai_messages st2 =
      openai_messages st ++ assistant_message collected calls :: added
    /\ Forall2 (fun m tc => exists text, m = ToolMessage (call_id tc) text)
               added (List.filter named calls)
    /\ invocations st2 = S (invocations st)
    /\ queries st2 = queries st + length (List.filter named calls).
Proof.
  intros Hr Hg Hrun.
  apply receive_state in Hr as (Hm & Hi & Hq & _).
  apply run_tool_calls_messages in Hrun
    as (added & answered & pending & Hm2 & Hf & Hfilter & Hi2 & -> & Hq2).
  rewrite app_nil_r in Hfilter. subst answered. simpl in *.
  exists added. rewrite Hm2, Hm, <- app_assoc, Hi2, Hi, Hq2, Hq. done.
Qed.

(** *** Failures *)

(** C4 (as amended). In a pass whose first record has a name, let the
    calls before some named call have returned, and let that call fail in
    one of three ways: its arguments do not load as a JSON object
    ([json.loads] raises, or returns something that is no object); they
    load, and the value under [keywords] cannot be iterated as strings;
    or they load, the keywords are strings, the city and the limit are of
    their declared types, and the storage query raises. Then the run ends
    in that exception with no retry: the message list is as the earlier
    calls left it, so neither the failing call nor any later one gets a
    tool message; the model is not called again; no later call runs a
    query; what was yielded stays, followed only, when it is the query
    that raises, by the failing call's own notice, which precedes the
    query. *)
Theorem failing_call_aborts (fuel : nat) (st0 st1 st2 : State) (collected : string)
    (before after : list ToolCall) (tc : ToolCall) :
  receive env st0 = (Ok (collected, before ++ tc :: after), st1) ->
  has_tool_calls (before ++ tc :: after) = true ->
  run_tool_calls env before
    (append_message (assistant_message collected (before ++ tc :: after)) st1).2
    = (Ok tt, st2) ->
  named tc = true ->
  (exists e, load_arguments env (call_arguments tc) = Raise e)
  \/ (exists fields e,
        load_arguments env (call_arguments tc) = Ok fields
        /\ iterate_strings (default (JArr []) (dict_get "keywords" fields)) = Raise e)
  \/ (exists fields keywords city_arg limit,
        load_arguments env (call_arguments tc) = Ok fields
        /\ iterate_strings (default (JArr []) (dict_get "keywords" fields)) = Ok keywords
        /\ typed_city (dict_get "city" fields) = Some city_arg
        /\ typed_limit (dict_get "limit" fields) = Some limit
        /\ storage env (queries st2) = None) ->
  exists e st',
    agent_loop env (S fuel) st0 = (Raise e, st')
    /\ openai_messages st' = openai_messages st2
    /\ invocations st' = S (invocations st0)
    /\ ((st' = st2
         /\ (load_arguments env (call_arguments tc) = Raise e
             \/ exists fields,
                  load_arguments env (call_arguments tc) = Ok fields
                  /\ iterate_strings (default (JArr []) (dict_get "keywords" fields))
                     = Raise e))
        \/ (e = StorageError
            /\ queries st' = S (queries st2)
            /\ exists keywords, yielded st' = yielded st2 ++ [notice keywords])).
Proof.
  intros Hr Hg Hbefore Hn Hfail.
  assert (Hinv : invocations st2 = S (invocations st0)).
  { pose proof (run_tool_calls_messages _ _ _ _ Hbefore)
      as (added & answered & pending & _ & _ & _ & Hi & _).
    pose proof (receive_state _ _ _ Hr) as (_ & Hi0 & _).
    simpl in Hi. by rewrite Hi, Hi0. }
  destruct Hfail as [[e He]|[(fields & e & Hl & Hk)
                            |(fields & keywords & c & n & Hl & Hk & Hc & Hlim & Hdown)]].
  - exists e, st2. split; [|repeat split; [done|left; split; [done|by left]]].
    eapply turn_aborts; [done..|].
    rewrite run_tool_calls_app, Hbefore, run_tool_calls_cons.
    by rewrite (run_tool_call_rejected _ _ _ Hn He).
  - exists e, st2. split; [|repeat split; [done|left; split; [done|right; eauto]]].
    eapply turn_aborts; [done..|].
    rewrite run_tool_calls_app, Hbefore, run_tool_calls_cons.
    by rewrite (run_tool_call_keywords_rejected _ _ _ _ Hn Hl Hk).
  - eexists StorageError, _. split.
    + eapply turn_aborts; [done..|].
      rewrite run_tool_calls_app, Hbefore, run_tool_calls_cons.
      rewrite (run_tool_call_search _ _ _ _ _ _ Hn Hl Hk Hc Hlim), Hdown. reflexivity.
    + simpl. repeat split; [done|]. right. eauto.
Qed.

(** C9 (as amended). In a pass whose first record has a name, let the
    calls before some named call have returned, and let that call's
    arguments load as an object without the key [keywords], which
    [SEARCH_TOOL] lists as required, with a city that is absent, null or a
    string, a limit that is absent or an integer from 0 to 2^63 - 1, and a
    storage that answers. Then the call is run and does not raise: its
    notice names no keyword, every row passes the keyword stage, and its
    tool message carries the first [limit] rows of the table that pass the
    city stage, which are as many as there are when fewer than [limit]
    pass. The pass goes on with the calls after it, and to the next model
    call when it is the last. *)
Theorem missing_keywords_search_all (st0 st1 st2 : State) (collected : string)
    (before after : list ToolCall) (tc : ToolCall)
    (fields : list (string * json)) (city_arg : option string) (limit : nat)
    (table : list Company) :
  receive env st0 = (Ok (collected, before ++ tc :: after), st1) ->
  has_tool_calls (before ++ tc :: after) = true ->
  run_tool_calls env before
    (append_message (assistant_message collected (before ++ tc :: after)) st1).2
    = (Ok tt, st2) ->
  named tc = true ->
  json_loads env (call_arguments tc) = Some (JObj fields) ->
  dict_get "keywords" fields = None ->
  typed_city (dict_get "city" fields) = Some city_arg ->
  typed_limit (dict_get "limit" fields) = Some limit ->
  storage env (queries st2) = Some table ->
  let rows := take limit (List.filter (passes_city city_arg) table) in
  let st3 :=
    {| openai_messages := openai_messages st2 ++
         [ToolMessage (call_id tc) (json_dumps env (map to_result rows))];
       yielded := yielded st2 ++ [notice []];
       invocations := invocations st2;
       queries := S (queries st2) |} in
  In "keywords" SEARCH_TOOL_required
  /\ run_tool_call env tc st2 = (Ok tt, st3)
  /\ run_tool_calls env (before ++ tc :: after)
       (append_message (assistant_message collected (before ++ tc :: after)) st1).2
     = run_tool_calls env after st3
  /\ (forall fuel, after = [] -> agent_loop env (S fuel) st0 = agent_loop env fuel st3)
  /\ (forall row, passes_keywords [] row = true)
  /\ length rows = Nat.min limit (length (List.filter (passes_city city_arg) table)).
Proof.
  intros Hr Hg Hbefore Hn Hl Hk Hc Hlim Hup rows st3.
  assert (Hrows : search_startups table [] city_arg limit = map to_result rows).
  { unfold search_startups, search_rows, rows. do 2 f_equal.
    apply filter_ext_bool. intros r.
    by rewrite where_clause_stages, passes_keywords_empty. }
  assert (Hcall : run_tool_call env tc st2 = (Ok tt, st3)).
  { rewrite (run_tool_call_search tc st2 fields [] city_arg limit); try done.
    - by rewrite Hup, Hrows.
    - unfold load_arguments. by rewrite Hl.
    - by rewrite Hk. }
  assert (Hall : run_tool_calls env (before ++ tc :: after)
             (append_message (assistant_message collected (before ++ tc :: after)) st1).2
           = run_tool_calls env after st3).
  { by rewrite run_tool_calls_app, Hbefore, run_tool_calls_cons, Hcall. }
  split; [by left|]. split; [exact Hcall|]. split; [exact Hall|]. split; [|split].
  - intros fuel ->. eapply turn_continues; [exact Hr|exact Hg|]. by rewrite Hall.
  - intros row. reflexivity.
  - unfold rows. apply length_take.
Qed.

(** C10. A fragment that carries a non-negative index [i] leaves a list
    that reaches index [i], with the empty record at every position it had
    to add below [i] and the records it already had, other than the one at
    [i], unchanged. So after a turn of such fragments the list has a
    record at every position below its length, which is one more than the
    largest index carried; a position no fragment carried holds the empty
    record, and running that record does nothing. *)
Theorem padding_is_dense_and_idle (calls : list ToolCall) (tc : ToolCallDelta) (i : Z)
    (tcs : list ToolCallDelta) :
  tc_index tc = Some i -> (0 <= i)%Z -> indexed_from_zero tcs = true ->
  (exists calls',
     accumulate calls tc = Ok calls'
     /\ length calls' = Nat.max (length calls) (Z.to_nat (i + 1))
     /\ (forall j, length calls <= j < Z.to_nat i -> calls' !! j = Some empty_call)
     /\ (forall j, j < length calls -> j <> Z.to_nat i -> calls' !! j = calls !! j))
  /\ (exists finalized,
       accumulate_all [] tcs = Ok finalized
       /\ length finalized = extent tcs
       /\ (forall j, j < extent tcs -> is_Some (finalized !! j))
       /\ (forall j, j < extent tcs ->
             (forall tc', In tc' tcs -> carries (Z.of_nat j) tc' = false) ->
             finalized !! j = Some empty_call
             /\ forall st, run_tool_call env empty_call st = (Ok tt, st))).
Proof.
  intros Hi H0 Hz. split.
  - destruct (accumulate_step calls tc i Hi H0) as (calls' & Hacc & Hlen & Hrec).
    exists calls'. repeat split; try done.
    + intros j Hj. rewrite lookup_record_at by lia. rewrite Hrec.
      rewrite decide_False by lia. by rewrite record_at_beyond by lia.
    + intros j Hj Hne. rewrite lookup_record_at by lia. rewrite Hrec.
      rewrite decide_False by lia. by rewrite <- lookup_record_at.
  - destruct (accumulate_all_from_zero tcs [] Hz) as (finalized & Hacc & Hlen & Hrec).
    simpl in Hlen. exists finalized. repeat split; try done.
    + intros j Hj. apply lookup_lt_is_Some_2. lia.
    + rewrite lookup_record_at by lia. rewrite Hrec. unfold merged.
      by rewrite filter_none.
Qed.

(** *** Tool messages answer the assistant message before them *)

Lemma open_ids_app (ids : list string) (a b : list Message) :
  open_ids ids (a ++ b) = open_ids (open_ids ids a) b.
Proof.
  revert ids. induction a as [|m a IH]; intros ids; [reflexivity|].
  destruct m; simpl; apply IH.
Qed.

Lemma linked_app (ids : list string) (a b : list Message) :
  linked ids (a ++ b) = linked ids a && linked (open_ids ids a) b.
Proof.
  revert ids. induction a as [|m a IH]; intros ids; [reflexivity|].
  destruct m; simpl; rewrite ?IH; try reflexivity.
  by rewrite andb_assoc.
Qed.

Lemma linked_initial (messages : list (string * string)) :
  linked [] (initial_messages env messages) = true.
Proof.
  unfold initial_messages. simpl. induction messages as [|m ms IH]; [reflexivity|].
  exact IH.
Qed.

Lemma existsb_eqb_In (i : string) (ids : list string) :
  In i ids -> existsb (String.eqb i) ids = true.
Proof.
  intros H. apply existsb_exists. exists i. split; [done|apply String.eqb_refl].
Qed.

(** One call keeps the link, and leaves the same descriptor ids open. *)
Lemma call_outcome_linked (tc : ToolCall) (st st' : State) (r : result unit) :
  call_outcome tc st r st' ->
  linked [] (openai_messages st) = true ->
  (named tc = true -> In (call_id tc) (open_ids [] (openai_messages st))) ->
  linked [] (openai_messages st') = true
  /\ open_ids [] (openai_messages st') = open_ids [] (openai_messages st).
Proof.
  intros Ho Hl Hid. destruct Ho as [Hn|keywords text Hn|e Hn|e keywords Hn]; simpl;
    try (split; done).
  rewrite linked_app, open_ids_app, Hl. simpl.
  rewrite (existsb_eqb_In _ _ (Hid Hn)). done.
Qed.

Lemma run_tool_calls_linked (calls : list ToolCall) (st st' : State) (r : result unit) :
  run_tool_calls env calls st = (r, st') ->
  linked [] (openai_messages st) = true ->
  (forall tc, In tc calls -> named tc = true ->
     In (call_id tc) (open_ids [] (openai_messages st))) ->
  linked [] (openai_messages st') = true.
Proof.
  revert st. induction calls as [|tc rest IH]; intros st H Hl Hid.
  { injection H as _ <-. done. }
  rewrite run_tool_calls_cons in H.
  pose proof (run_tool_call_outcome tc st) as Ho.
  destruct (run_tool_call env tc st) as [r1 st1]. simpl in Ho.
  apply call_outcome_linked in Ho as [Hl1 Hopen]; [|done|apply Hid; by left].
  destruct r1 as [[]|e].
  - apply (IH st1 H Hl1). intros tc' Hin Hn. rewrite Hopen. apply Hid; [by right|done].
  - injection H as _ <-. done.
Qed.

Lemma turn_linked (st st' : State) (r : result bool) :
  turn env st = (r, st') ->
  linked [] (openai_messages st) = true ->
  linked [] (openai_messages st') = true.
Proof.
  unfold turn. unfold bind at 1. intros H Hl.
  destruct (receive env st) as [[[collected calls]|e] st1] eqn:Hr;
    apply receive_state in Hr as (Hm & _); simpl in H.
  - destruct (has_tool_calls calls).
    + unfold bind at 1 in H. unfold append_message at 1 in H. unfold bind at 1 in H.
      match type of H with context [run_tool_calls env calls ?s] =>
        destruct (run_tool_calls env calls s) as [r2 st2] eqn:Hrun end.
      apply run_tool_calls_linked in Hrun.
      * destruct r2; injection H as _ <-; done.
      * simpl. rewrite linked_app, Hm, Hl. reflexivity.
      * intros tc Hin Hn. simpl. rewrite open_ids_app. simpl.
        apply in_map. apply filter_In. done.
    + injection H as _ <-. by rewrite Hm.
  - injection H as _ <-. by rewrite Hm.
Qed.

Lemma agent_loop_linked (fuel : nat) (st st' : State) (r : result Completion) :
  agent_loop env fuel st = (r, st') ->
  linked [] (openai_messages st) = true ->
  linked [] (openai_messages st') = true.
Proof.
  revert st. induction fuel as [|fuel IH]; intros st H Hl.
  { injection H as _ <-. done. }
  cbn [agent_loop] in H. unfold bind in H.
  destruct (turn env st) as [[again|e] st1] eqn:Ht;
    apply turn_linked in Ht; try done.
  - destruct again; [by eapply IH|]. injection H as _ <-. done.
  - injection H as _ <-. done.
Qed.

(** C8. However a run of the loop ends (finished, aborted by an
    exception, or cut after any number of passes), every message of its
    list that carries a [tool_call_id] names a descriptor of the assistant
    message just before it, with only tool messages in between. *)
Theorem tool_messages_answer_assistant (fuel : nat) (messages : list (string * string)) :
  linked [] (openai_messages (run_agent env fuel messages).2) = true.
Proof.
  unfold run_agent.
  destruct (agent_loop env fuel (initial_state env messages)) as [r st'] eqn:H.
  apply agent_loop_linked in H; [done|]. apply linked_initial.
Qed.

End AgentProperties.

(** ** The code at concrete inputs *)

Section Cases.

Import Examples.

(** C1, the code at a failing input. The only fragment of the turn
    carries index 1 and names a call: the finalized records are the
    padding at index 0 and a named record at index 1. A finalized record
    has a name, yet the test of line 183 reads the name of record 0 alone:
    the loop ends after this one model call, without an assistant message
    and without running the named call. *)
Theorem named_call_behind_padding_ends_loop :
  let w := world second_only up in
  exists st1,
    receive w (initial_state w hello) = (Ok (EmptyString, [empty_call; call_b]), st1)
    /\ existsb named [empty_call; call_b] = true
    /\ has_tool_calls [empty_call; call_b] = false
    /\ run_agent w 5 hello = (Ok Finished, st1)
    /\ invocations st1 = 1
    /\ openai_messages st1 = initial_messages w hello.
Proof. eexists. repeat split; vm_compute; reflexivity. Qed.

(** C3, the code at a failing input (the defect of C1). The finalized
    records of the turn hold one named record, at index 1 behind the
    padding; no tool message is appended for it and no query is run. *)
Theorem named_call_behind_padding_not_run :
  let w := world second_only up in
  let st' := (run_agent w 5 hello).2 in
  (receive w (initial_state w hello)).1 = Ok (EmptyString, [empty_call; call_b])
  /\ length (List.filter named [empty_call; call_b]) = 1
  /\ tool_message_ids (openai_messages st') = []
  /\ queries st' = 0
  /\ yielded st' = [].
Proof. repeat split; vm_compute; reflexivity. Qed.

(** The name is the one text that is copied as stored, without a default:
    were a row to hold NULL there, its dict would carry [None]. *)
Example null_name_is_copied :
  company_name nameless = None
  /\ search_startups table ["payments"] None 10 = [to_result nameless]
  /\ r_company_name (to_result nameless) = None
  /\ r_website_url (to_result nameless) = EmptyString
  /\ r_city (to_result nameless) = EmptyString.
Proof. repeat split; vm_compute; reflexivity. Qed.

(** C4 as stated fails: the arguments [{}] lack the key the declared
    schema requires, and the request is not aborted. The call runs, gets
    its tool message, and the loop goes on to a second model call. *)
Lemma schema_violation_does_not_abort :
  let w := world one_search up in
  let st' := (run_agent w 5 hello).2 in
  In "keywords" SEARCH_TOOL_required
  /\ load_arguments w "{}" = Ok []
  /\ dict_get "keywords" [] = None
  /\ (receive w (initial_state w hello)).1 = Ok (EmptyString, [call_a])
  /\ (run_agent w 5 hello).1 = Ok Finished
  /\ tool_message_ids (openai_messages st') = ["call_a"]
  /\ invocations st' = 2.
Proof. repeat split; vm_compute; auto. Qed.

(** C9 as stated fails: the arguments are an object without [keywords]
    and with the limit 2^63, one more than a [LIMIT] can be; the notice is
    yielded, the query raises, and the request ends in that exception with
    no tool message. *)
Lemma large_limit_without_keywords_fails :
  let w := MoreExamples.world_limit in
  let st' := (run_agent w 5 hello).2 in
  load_arguments w MoreExamples.large_limit_arguments
    = Ok [("limit", JInt 9223372036854775808)]
  /\ dict_get "keywords" [("limit", JInt 9223372036854775808)] = None
  /\ (receive w (initial_state w hello)).1
     = Ok (EmptyString,
           [{| call_id := "call_a"; call_name := "search_startups";
               call_arguments := MoreExamples.large_limit_arguments |}])
  /\ (run_agent w 5 hello).1 = Raise StorageError
  /\ yielded st' = [notice []]
  /\ tool_message_ids (openai_messages st') = []
  /\ invocations st' = 1.
Proof. repeat split; vm_compute; reflexivity. Qed.

(** C5 as stated fails: the keyword [a_c] is a substring of no field of
    the row named [abc], and that row is returned, because [_] in a
    [LIKE] pattern stands for any character. *)
Lemma underscore_keyword_matches_any_character :
  In abc (search_rows table ["a_c"] None 10)
  /\ ["a_c"] <> []
  /\ some_keyword_occurs ["a_c"] abc = false.
Proof. repeat split; vm_compute; auto. discriminate. Qed.

(** C6 as stated fails: the city [N_w] is a substring of no stored city,
    and the row in New York is returned. *)
Lemma underscore_city_matches_any_character :
  In (to_result abc) (search_startups table [] (Some "N_w") 10)
  /\ nonempty "N_w" = true
  /\ occurs_ci "N_w" (city abc) = false
  /\ occurs_ci "N_w" (Some (r_city (to_result abc))) = false.
Proof. repeat split; vm_compute; auto. Qed.

(** A negative index is read from the end of the list, and is out of
    range on an empty one. *)
Example negative_index_counts_from_end :
  accumulate [] (fragment (-1) (Some "call_x") None None) = Raise IndexError
  /\ accumulate [call_a; empty_call] (fragment (-1) (Some "call_x") None None)
     = Ok [call_a; set_id "call_x" empty_call].
Proof. split; reflexivity. Qed.

(** A storage failure on the first of two calls: the notice of that call
    is out, no tool message is appended, the second call is not run. *)
Example storage_failure_aborts :
  let w := world two_searches down in
  let st' := (run_agent w 5 hello).2 in
  (run_agent w 5 hello).1 = Raise StorageError
  /\ yielded st' = ["Looking."; notice []]
  /\ tool_message_ids (openai_messages st') = []
  /\ invocations st' = 1
  /\ queries st' = 1.
Proof. repeat split; vm_compute; reflexivity. Qed.

(** One search, then an answer in text: two model calls, one query, one
    tool message, and the loop is finished. *)
Example one_search_two_invocations :
  let w := world one_search up in
  let st' := (run_agent w 5 hello).2 in
  (run_agent w 5 hello).1 = Ok Finished
  /\ invocations st' = 2
  /\ queries st' = 1
  /\ yielded st' = [notice []; "Here is the table."]
  /\ tool_message_ids (openai_messages st') = ["call_a"].
Proof. repeat split; vm_compute; reflexivity. Qed.

(** Two named calls from index 0: two tool messages, in index order. *)
Example two_searches_in_order :
  let w := world two_searches up in
  let st' := (run_agent w 5 hello).2 in
  (run_agent w 5 hello).1 = Ok Finished
  /\ tool_message_ids (openai_messages st') = ["call_a"; "call_b"]
  /\ invocations st' = 2
  /\ queries st' = 2.
Proof. repeat split; vm_compute; reflexivity. Qed.

End Cases.

(** ** The theorems at concrete inputs *)

Section Witnesses.

Import Examples.

(** [arguments_concatenate] on two fragments for index 0 with a fragment
    for index 1 between them. *)
Lemma arguments_concatenate_witness :
  let tcs := [fragment 0 (Some "call_a") (Some "search_startups") (Some "{");
              fragment 1 (Some "call_b") (Some "search_startups") (Some "{}");
              fragment 0 None None (Some "}")] in
  (0 <= 0)%Z /\ indexed_from_zero tcs = true
  /\ (exists tc, In tc tcs /\ carries 0 tc = true)
  /\ exists streamed whole,
       accumulate_all [] tcs = Ok streamed
       /\ accumulate_all [] [arguments_fragment 0 "{}"] = Ok whole
       /\ call_arguments <$> streamed !! 0 = Some "{}"
       /\ call_arguments <$> whole !! 0 = Some "{}".
Proof.
  intros tcs.
  assert (H0 : (0 <= 0)%Z) by lia.
  assert (Hz : indexed_from_zero tcs = true) by reflexivity.
  assert (Hsome : exists tc, In tc tcs /\ carries 0 tc = true).
  { eexists. split; [by left|reflexivity]. }
  repeat (split; [assumption|]).
  destruct (arguments_concatenate 0 tcs H0 Hz Hsome)
    as (streamed & whole & H1 & H2 & H3 & H4 & _).
  exists streamed, whole. repeat split; assumption.
Defined.

(** [failing_call_aborts] on a turn of three calls whose second has its
    arguments cut short. *)
Lemma failing_call_aborts_witness :
  let w := world middle_cut_short up in
  let st0 := initial_state w hello in
  let st1 := (receive w st0).2 in
  let st2 := (run_tool_calls w [call_a]
                (append_message (assistant_message "Looking." [call_a; call_b_cut; call_c])
                   st1).2).2 in
  receive w st0 = (Ok ("Looking.", [call_a] ++ call_b_cut :: [call_c]), st1)
  /\ has_tool_calls ([call_a] ++ call_b_cut :: [call_c]) = true
  /\ named call_b_cut = true
  /\ load_arguments w (call_arguments call_b_cut) = Raise JSONDecodeError
  /\ exists e st',
       agent_loop w 1 st0 = (Raise e, st')
       /\ openai_messages st' = openai_messages st2
       /\ invocations st' = 1.
Proof.
  intros w st0 st1 st2.
  assert (Hr : receive w st0 = (Ok ("Looking.", [call_a] ++ call_b_cut :: [call_c]), st1))
    by (vm_compute; reflexivity).
  assert (Hg : has_tool_calls ([call_a] ++ call_b_cut :: [call_c]) = true) by reflexivity.
  assert (Hn : named call_b_cut = true) by reflexivity.
  assert (Hl : load_arguments w (call_arguments call_b_cut) = Raise JSONDecodeError)
    by reflexivity.
  assert (Hb : run_tool_calls w [call_a]
             (append_message
                (assistant_message "Looking." ([call_a] ++ call_b_cut :: [call_c])) st1).2
           = (Ok tt, st2)) by (vm_compute; reflexivity).
  repeat (split; [assumption|]).
  destruct (failing_call_aborts w 0 st0 st1 st2 "Looking." [call_a] [call_c] call_b_cut
              Hr Hg Hb Hn (or_introl (ex_intro _ JSONDecodeError Hl)))
    as (e & st' & Hrun & Hm & Hi & _).
  exists e, st'. repeat split; assumption.
Defined.

(** [search_startups_plain_keywords] on the keyword [fintech]. *)
Lemma search_startups_plain_keywords_witness :
  forallb plain ["fintech"] = true
  /\ length (search_startups table ["fintech"] None 10) <= 10
  /\ forall res, In res (search_startups table ["fintech"] None 10) ->
       exists row, In row table /\ res = to_result row
                   /\ (["fintech"] <> [] -> some_keyword_occurs ["fintech"] row = true).
Proof.
  assert (Hp : forallb plain ["fintech"] = true) by reflexivity.
  split; [assumption|].
  destruct (search_startups_plain_keywords table ["fintech"] None 10 Hp) as (Hlen & Hres & _).
  split; assumption.
Defined.

(** [search_startups_plain_city] on the city [Boston]. *)
Lemma search_startups_plain_city_witness :
  nonempty "Boston" = true /\ plain "Boston" = true
  /\ forall res, In res (search_startups table [] (Some "Boston") 10) ->
       exists row, In row table /\ res = to_result row
                   /\ passes_keywords [] row = true
                   /\ occurs_ci "Boston" (city row) = true
                   /\ occurs_ci "Boston" (Some (r_city res)) = true.
Proof.
  assert (Hc : nonempty "Boston" = true) by reflexivity.
  assert (Hp : plain "Boston" = true) by reflexivity.
  repeat (split; [assumption|]).
  exact (proj1 (search_startups_plain_city table [] "Boston" 10 Hc Hp)).
Defined.

(** [missing_keywords_search_all] on the second of two calls whose
    arguments are the empty object. *)
Lemma missing_keywords_search_all_witness :
  let w := world two_searches up in
  let st0 := initial_state w hello in
  let st1 := (receive w st0).2 in
  let st2 := (run_tool_calls w [call_a]
                (append_message (assistant_message "Looking." [call_a; call_b]) st1).2).2 in
  receive w st0 = (Ok ("Looking.", [call_a] ++ call_b :: []), st1)
  /\ has_tool_calls ([call_a] ++ call_b :: []) = true
  /\ named call_b = true
  /\ json_loads w (call_arguments call_b) = Some (JObj [])
  /\ dict_get "keywords" [] = None
  /\ storage w (queries st2) = Some table
  /\ (run_tool_call w call_b st2).1 = Ok tt
  /\ openai_messages (run_tool_call w call_b st2).2
     = openai_messages st2
         ++ [ToolMessage "call_b" (json_dumps w (map to_result (take 10 table)))]
  /\ agent_loop w 3 st0 = agent_loop w 2 (run_tool_call w call_b st2).2.
Proof.
  intros w st0 st1 st2.
  assert (Hr : receive w st0 = (Ok ("Looking.", [call_a] ++ call_b :: []), st1))
    by (vm_compute; reflexivity).
  assert (Hg : has_tool_calls ([call_a] ++ call_b :: []) = true) by reflexivity.
  assert (Hb : run_tool_calls w [call_a]
             (append_message
                (assistant_message "Looking." ([call_a] ++ call_b :: [])) st1).2
           = (Ok tt, st2)) by (vm_compute; reflexivity).
  assert (Hn : named call_b = true) by reflexivity.
  assert (Hl : json_loads w (call_arguments call_b) = Some (JObj [])) by reflexivity.
  assert (Hk : dict_get "keywords" [] = None) by reflexivity.
  assert (Hup : storage w (queries st2) = Some table) by reflexivity.
  repeat (split; [assumption|]).
  destruct (missing_keywords_search_all w st0 st1 st2 "Looking." [call_a] [] call_b
              [] None 10 table Hr Hg Hb Hn Hl Hk eq_refl eq_refl Hup)
    as (_ & Hrun & _ & Hloop & _).
  rewrite Hrun. split; [reflexivity|]. split; [reflexivity|]. by apply Hloop.
Defined.

(** [padding_is_dense_and_idle] on a turn whose only fragment carries
    index 1. *)
Lemma padding_is_dense_and_idle_witness :
  let w := world second_only up in
  let tc := fragment 1 (Some "call_b") (Some "search_startups") (Some "{}") in
  tc_index tc = Some 1%Z /\ (0 <= 1)%Z /\ indexed_from_zero [tc] = true
  /\ exists finalized,
       accumulate_all [] [tc] = Ok finalized
       /\ length finalized = 2
       /\ finalized !! 0 = Some empty_call.
Proof.
  intros w tc.
  assert (Hi : tc_index tc = Some 1%Z) by reflexivity.
  assert (H0 : (0 <= 1)%Z) by lia.
  assert (Hz : indexed_from_zero [tc] = true) by reflexivity.
  repeat (split; [assumption|]).
  destruct (padding_is_dense_and_idle w [] tc 1 [tc] Hi H0 Hz)
    as (_ & finalized & Hacc & Hlen & _ & Hidle).
  exists finalized. repeat (split; [assumption|]).
  apply (Hidle 0).
  - vm_compute. lia.
  - intros tc' [<-|[]]. reflexivity.
Defined.

End Witnesses.

(** * Further properties of the code *)

(** ** [search_startups]: order, limit, NULL columns, letter case *)

Section ExecutorMore.

Lemma ilike_null (pattern : string) : Sql.selected (Sql.ilike None pattern) = false.
Proof. reflexivity. Qed.

Lemma passes_keywords_exists (keywords : list string) (r : Company) :
  keywords <> [] ->
  passes_keywords keywords r =
  existsb (fun kw => Sql.selected (keyword_condition kw r)) keywords.
Proof.
  intros Hne. unfold passes_keywords, keyword_stage.
  destruct keywords as [|k ks]; [done|].
  rewrite selected_or_. clear Hne. induction (k :: ks) as [|kw l IH]; [reflexivity|].
  cbn [map existsb]. by rewrite IH.
Qed.

Lemma keyword_condition_columns (kw : string) (r : Company) :
  Sql.selected (keyword_condition kw r) =
  Sql.selected (Sql.ilike (company_name r) (wrap kw))
  || Sql.selected (Sql.ilike (description r) (wrap kw))
  || Sql.selected (Sql.ilike (website_text r) (wrap kw)).
Proof.
  unfold keyword_condition. rewrite selected_or_. simpl.
  by rewrite orb_false_r, orb_assoc.
Qed.

Lemma textless_fails (keywords : list string) (r : Company) :
  keywords <> [] -> textless r = true -> passes_keywords keywords r = false.
Proof.
  intros Hne Ht. rewrite passes_keywords_exists by done.
  unfold textless in Ht.
  destruct (company_name r) eqn:Hn, (description r) eqn:Hd, (website_text r) eqn:Hw;
    try discriminate.
  induction keywords as [|kw l IH]; [reflexivity|].
  cbn [existsb]. rewrite keyword_condition_columns, Hn, Hd, Hw. simpl.
  destruct l; [reflexivity|]. by apply IH.
Qed.

(** X2. NULL columns match nothing: with a non-empty keyword list no
    returned row has its name, description and website text all NULL, and
    with a non-empty city no returned row has a NULL city. *)
Theorem search_skips_null_columns (table : list Company) (keywords : list string)
    (city_arg : option string) (limit : nat) (row : Company) :
  In row (search_rows table keywords city_arg limit) ->
  (keywords <> [] -> textless row = false)
  /\ (forall c, city_arg = Some c -> nonempty c = true -> city row <> None).
Proof.
  unfold search_rows. intros H. apply In_take, filter_In in H as [_ Hw].
  rewrite where_clause_stages in Hw. apply andb_prop in Hw as [Hk Hc]. split.
  - intros Hne. destruct (textless row) eqn:Ht; [|done].
    by rewrite (textless_fails _ _ Hne Ht) in Hk.
  - intros c -> Hn Hnull. unfold passes_city, city_stage in Hc.
    rewrite Hn, Hnull in Hc. discriminate.
Qed.

Lemma ilike_folded (a b : string) (column : option string) :
  same_folded a b = true -> Sql.ilike column (wrap a) = Sql.ilike column (wrap b).
Proof.
  unfold same_folded. intros H%bool_decide_eq_true.
  destruct column as [text|]; [|reflexivity]. unfold Sql.ilike.
  by rewrite !chars_wrap, !map_cons, !map_app, H.
Qed.

Lemma same_folded_nonempty (a b : string) :
  same_folded a b = true -> nonempty a = nonempty b.
Proof.
  unfold same_folded. intros H%bool_decide_eq_true.
  destruct a, b; try reflexivity; discriminate.
Qed.

Lemma keyword_stage_folded (ks ks' : list string) (r : Company) :
  Forall2 (fun a b => same_folded a b = true) ks ks' ->
  keyword_stage ks r = keyword_stage ks' r.
Proof.
  intros H. unfold keyword_stage.
  assert (Hmap : map (fun kw => keyword_condition kw r) ks
                 = map (fun kw => keyword_condition kw r) ks').
  { induction H as [|a b l l' Hab _ IH]; [reflexivity|].
    simpl. f_equal; [|exact IH]. unfold keyword_condition. simpl.
    by rewrite !(ilike_folded a b _ Hab). }
  destruct H; [reflexivity|]. by rewrite Hmap.
Qed.

(** X3. Letter case of the search terms does not matter: keyword lists
    that agree term by term up to the case of the letters A to Z, with
    cities that agree likewise, return the same rows. *)
Theorem search_ignores_term_case (table : list Company) (ks ks' : list string)
    (c c' : string) (limit : nat) :
  Forall2 (fun a b => same_folded a b = true) ks ks' ->
  same_folded c c' = true ->
  search_startups table ks (Some c) limit = search_startups table ks' (Some c') limit
  /\ search_startups table ks None limit = search_startups table ks' None limit.
Proof.
  intros Hks Hc. unfold search_startups, search_rows.
  split; do 2 f_equal; apply filter_ext_bool; intros r; unfold where_clause;
    rewrite (keyword_stage_folded ks ks' r Hks); [|reflexivity].
  unfold city_stage. rewrite (same_folded_nonempty c c' Hc).
  by rewrite (ilike_folded c c' _ Hc).
Qed.

Lemma existsb_incl {A : Type} (f : A -> bool) (l l' : list A) :
  (forall x, In x l -> In x l') -> existsb f l = true -> existsb f l' = true.
Proof.
  intros Hincl H. apply existsb_exists in H as [x [Hin Hf]].
  apply existsb_exists. exists x. auto.
Qed.

(** X4. Only the set of keywords counts: two keyword lists with the same
    members, in any order and with any repetitions, return the same
    results. *)
Theorem search_ignores_keyword_order (table : list Company) (ks ks' : list string)
    (city_arg : option string) (limit : nat) :
  (forall kw, In kw ks <-> In kw ks') ->
  search_startups table ks city_arg limit = search_startups table ks' city_arg limit.
Proof.
  intros Hsame. unfold search_startups, search_rows. do 2 f_equal.
  apply filter_ext_bool. intros r. rewrite !where_clause_stages. f_equal.
  destruct ks as [|k ks].
  { destruct ks' as [|k' ks']; [reflexivity|]. destruct (proj2 (Hsame k')). by left. }
  destruct ks' as [|k' ks'].
  { destruct (proj1 (Hsame k)). by left. }
  rewrite !passes_keywords_exists by done.
  apply eq_true_iff_eq. split; apply existsb_incl; intros kw; apply Hsame.
Qed.

(** X5. Adding keywords to a non-empty list never drops a row from the
    selection, while the empty list selects exactly the rows that pass the
    city stage, rows without any text included. *)
Theorem more_keywords_select_more (keywords more : list string)
    (city_arg : option string) (r : Company) :
  keywords <> [] ->
  where_clause keywords city_arg r = true ->
  where_clause (keywords ++ more) city_arg r = true
  /\ forall row, where_clause [] city_arg row = passes_city city_arg row.
Proof.
  intros Hne. rewrite !where_clause_stages. intros [Hk Hc]%andb_prop.
  rewrite Hc, !andb_true_r. split.
  - rewrite passes_keywords_exists in Hk by done.
    rewrite passes_keywords_exists by (destruct keywords; done).
    eapply existsb_incl; [|exact Hk]. intros kw Hin. apply in_or_app. by left.
  - intros row. by rewrite where_clause_stages.
Qed.

Lemma like_two_percent (s : list ascii) :
  Sql.like_match [Sql.percent; Sql.percent] s = true.
Proof. rewrite like_percent, like_only_percent. reflexivity. Qed.

Lemma ilike_empty_term (column : option string) :
  Sql.selected (Sql.ilike column (wrap EmptyString))
  = match column with Some _ => true | None => false end.
Proof.
  destruct column as [text|]; [|reflexivity].
  unfold Sql.ilike, Sql.selected. rewrite chars_wrap. simpl map.
  change (map Sql.lower [Sql.percent]) with [Sql.percent].
  by rewrite like_two_percent.
Qed.

(** X6. The empty keyword is not the empty keyword list: a list that
    holds the empty string selects exactly the rows with some text column
    that is not NULL, whatever else it holds. *)
Theorem empty_keyword_selects_rows_with_text (keywords : list string) (r : Company) :
  In EmptyString keywords ->
  passes_keywords keywords r = negb (textless r)
  /\ passes_keywords [] r = true.
Proof.
  intros Hin. split; [|reflexivity].
  destruct (textless r) eqn:Ht.
  - apply textless_fails; [by destruct keywords|done].
  - rewrite passes_keywords_exists by (by destruct keywords).
    apply existsb_exists. exists EmptyString. split; [done|].
    rewrite keyword_condition_columns, !ilike_empty_term.
    unfold textless in Ht.
    by destruct (company_name r), (description r), (website_text r).
Qed.

Lemma substring_prefix_exact (n : nat) (s : string) :
  String.length (substring 0 n s) = Nat.min n (String.length s)
  /\ (String.length s <= n -> substring 0 n s = s).
Proof.
  revert s. induction n as [|n IH]; intros s.
  - destruct s; simpl; split; try done; lia.
  - destruct s as [|c s]; simpl; [done|]. destruct (IH s) as [Hl He].
    split; [by rewrite Hl|]. intros Hle. f_equal. apply He. lia.
Qed.


(** X7. The description is cut only when it is longer than 300
    characters: a result carries the stored description whole when it has
    at most 300 characters, and otherwise exactly its first 300. *)
Theorem description_cut_only_when_long (row : Company) :
  String.length (r_description (to_result row))
  = Nat.min 300 (String.length (or_empty (description row)))
  /\ (String.length (or_empty (description row)) <= 300 ->
      r_description (to_result row) = or_empty (description row)).
Proof. apply substring_prefix_exact. Qed.

End ExecutorMore.

(** ** The accumulator: ids and names, order of fragments, negative indices *)

Section AccumulatorMore.

Lemma merge_id (tc : ToolCallDelta) (c : ToolCall) :
  call_id (merge tc c) = if truthy (tc_id tc) then or_empty (tc_id tc) else call_id c.
Proof.
  unfold merge.
  destruct (tc_id tc) as [[|x v]|]; (destruct (tc_function tc) as [fn|]; [|reflexivity]);
    (destruct (fn_name fn) as [[|y w]|]); by destruct (fn_arguments fn) as [[|z a]|].
Qed.

Lemma merge_name (tc : ToolCallDelta) (c : ToolCall) :
  call_name (merge tc c)
  = if truthy (fragment_name tc) then or_empty (fragment_name tc) else call_name c.
Proof.
  unfold merge, fragment_name.
  destruct (tc_id tc) as [[|x v]|]; (destruct (tc_function tc) as [fn|]; [|reflexivity]);
    (destruct (fn_name fn) as [[|y w]|]); by destruct (fn_arguments fn) as [[|z a]|].
Qed.

Lemma merged_id_name (j : nat) (tcs : list ToolCallDelta) (c : ToolCall) :
  call_id (merged j tcs c)
  = last_set (call_id c) (map tc_id (List.filter (carries (Z.of_nat j)) tcs))
  /\ call_name (merged j tcs c)
     = last_set (call_name c) (map fragment_name (List.filter (carries (Z.of_nat j)) tcs)).
Proof.
  unfold merged, last_set. generalize (List.filter (carries (Z.of_nat j)) tcs) as l.
  intros l. revert c. induction l as [|tc l IH]; intros c; [done|].
  simpl. destruct (IH (merge tc c)) as [-> ->]. by rewrite merge_id, merge_name.
Qed.

(** X9. Ids and names are set by overwriting: after a turn of fragments
    with non-negative indices, the record at a position holds the last
    non-empty id and the last non-empty name carried for that position,
    and the empty string where none was carried; an absent or empty value
    never erases an earlier one. *)
Theorem last_id_and_name_win (tcs : list ToolCallDelta) (j : nat) :
  indexed_from_zero tcs = true -> j < extent tcs ->
  exists calls c,
    accumulate_all [] tcs = Ok calls
    /\ calls !! j = Some c
    /\ call_id c = last_set EmptyString (map tc_id (List.filter (carries (Z.of_nat j)) tcs))
    /\ call_name c
       = last_set EmptyString (map fragment_name (List.filter (carries (Z.of_nat j)) tcs)).
Proof.
  intros Hz Hj.
  destruct (accumulate_all_from_zero tcs [] Hz) as (calls & Hacc & Hlen & Hrec).
  exists calls, (record_at calls j). split; [done|].
  split; [apply lookup_record_at; simpl in Hlen; lia|].
  rewrite Hrec. apply merged_id_name.
Qed.

Lemma records_eq (a b : list ToolCall) :
  length a = length b -> (forall j, record_at a j = record_at b j) -> a = b.
Proof.
  intros Hlen Hrec. apply list_eq. intros j.
  destruct (decide (j < length a)) as [Hj|Hj].
  - rewrite !lookup_record_at by lia. by rewrite Hrec.
  - by rewrite !lookup_ge_None_2 by lia.
Qed.

(** X10. Records do not interfere: two fragments that carry different
    non-negative indices can arrive in either order and leave the same
    list of records. *)
Theorem fragments_for_different_indices_commute (calls : list ToolCall)
    (a b : ToolCallDelta) (i j : Z) :
  tc_index a = Some i -> tc_index b = Some j ->
  (0 <= i)%Z -> (0 <= j)%Z -> i <> j ->
  exists calls',
    accumulate_all calls [a; b] = Ok calls'
    /\ accumulate_all calls [b; a] = Ok calls'.
Proof.
  intros Ha Hb Hi Hj Hne.
  assert (Hab : indexed_from_zero [a; b] = true).
  { simpl. rewrite Ha, Hb, andb_true_r. by rewrite !(proj2 (Z.leb_le _ _)). }
  assert (Hba : indexed_from_zero [b; a] = true).
  { simpl. rewrite Ha, Hb, andb_true_r. by rewrite !(proj2 (Z.leb_le _ _)). }
  destruct (accumulate_all_from_zero _ calls Hab) as (c1 & H1 & Hl1 & Hr1).
  destruct (accumulate_all_from_zero _ calls Hba) as (c2 & H2 & Hl2 & Hr2).
  exists c1. split; [done|]. rewrite H2. f_equal. apply records_eq.
  - rewrite Hl1, Hl2, !extent_cons, Ha, Hb. simpl. lia.
  - intros k. rewrite Hr1, Hr2, !merged_cons. unfold merged. simpl.
    unfold carries. rewrite Ha, Hb.
    destruct (Z.eqb_spec i (Z.of_nat k)) as [Hik|_],
             (Z.eqb_spec j (Z.of_nat k)) as [Hjk|_]; try reflexivity.
    congruence.
Qed.

Lemma accumulate_all_app (calls : list ToolCall) (a b : list ToolCallDelta) :
  accumulate_all calls (a ++ b)
  = bind_result (accumulate_all calls a) (fun calls' => accumulate_all calls' b).
Proof.
  revert calls. induction a as [|tc a IH]; intros calls; [reflexivity|].
  simpl. destruct (accumulate calls tc) as [calls'|e]; simpl; [apply IH|reflexivity].
Qed.

Lemma pad_negative (calls : list ToolCall) (i : Z) : (i < 0)%Z -> pad calls i = calls.
Proof.
  intros Hi. unfold pad. replace (Z.to_nat _) with 0 by lia. apply app_nil_r.
Qed.

Lemma update_if_at (value : option string) (i : Z) (k : nat)
    (f : string -> ToolCall -> ToolCall) (calls : list ToolCall) :
  slot (length calls) i = Some k ->
  update_if value i f calls =
  Ok (alter (fun c => match value with
                      | Some v => if nonempty v then f v c else c
                      | None => c
                      end) k calls).
Proof.
  intros Hs. unfold update_if, update_at.
  destruct value as [v|]; [destruct (nonempty v)|]; rewrite ?Hs; try reflexivity;
    by rewrite list_alter_id.
Qed.

Lemma update_if_outside (value : option string) (i : Z)
    (f : string -> ToolCall -> ToolCall) (calls : list ToolCall) :
  slot (length calls) i = None ->
  update_if value i f calls = if truthy value then Raise IndexError else Ok calls.
Proof.
  intros Hs. unfold update_if, update_at, truthy.
  destruct value as [v|]; [destruct (nonempty v)|]; by rewrite ?Hs.
Qed.

(** X12. A negative index is read from the end of the list and adds no
    record: within the list it merges into the record counted from the
    end; beyond the start of the list it raises [IndexError] when the
    fragment carries an id, a name or argument text, and changes nothing
    when it carries none. *)
Theorem negative_index_from_the_end (calls : list ToolCall) (tc : ToolCallDelta) (i : Z) :
  tc_index tc = Some i -> (i < 0)%Z ->
  ((- Z.of_nat (length calls) <= i)%Z ->
     accumulate calls tc
     = Ok (alter (merge tc) (Z.to_nat (Z.of_nat (length calls) + i)) calls))
  /\ ((i < - Z.of_nat (length calls))%Z ->
      accumulate calls tc = if writes tc then Raise IndexError else Ok calls).
Proof.
  intros Hi Hneg. unfold accumulate. rewrite Hi, (pad_negative _ _ Hneg). split.
  - intros Hin.
    assert (Hs : slot (length calls) i = Some (Z.to_nat (Z.of_nat (length calls) + i))).
    { unfold slot. rewrite (proj2 (Z.leb_gt 0 i)) by lia.
      by rewrite (proj2 (Z.leb_le _ _) Hin). }
    rewrite (update_if_at _ _ _ _ _ Hs). cbn [bind_result].
    destruct (tc_function tc) as [fn|] eqn:Hfn.
    + rewrite (update_if_at _ i (Z.to_nat (Z.of_nat (length calls) + i)))
        by (by rewrite length_alter).
      cbn [bind_result].
      rewrite (update_if_at _ i (Z.to_nat (Z.of_nat (length calls) + i)))
        by (by rewrite !length_alter).
      rewrite !list_alter_alter_eq. f_equal. apply list_alter_ext; [|done].
      intros c _. unfold merge. rewrite Hfn. reflexivity.
    + f_equal. apply list_alter_ext; [|done].
      intros c _. unfold merge. rewrite Hfn. reflexivity.
  - intros Hout.
    assert (Hs : slot (length calls) i = None).
    { unfold slot. rewrite (proj2 (Z.leb_gt 0 i)) by lia.
      by rewrite (proj2 (Z.leb_gt _ _)) by lia. }
    unfold writes, fragment_name, fragment_arguments.
    rewrite (update_if_outside _ _ _ _ Hs).
    destruct (truthy (tc_id tc)); [reflexivity|]. cbn [bind_result orb].
    destruct (tc_function tc) as [fn|]; [|reflexivity].
    rewrite (update_if_outside _ _ _ _ Hs).
    destruct (truthy (fn_name fn)); [reflexivity|]. cbn [bind_result orb].
    by rewrite (update_if_outside _ _ _ _ Hs).
Qed.

End AccumulatorMore.

(** ** The stream loop *)

Section StreamMore.

Variable env : Collaborators.

Lemma handle_content_text (d : ChoiceDelta) (collected : string) (st : State) :
  exists collected' st1 chunks,
    handle_content d collected st = (Ok collected', st1)
    /\ yielded st1 = yielded st ++ chunks
    /\ collected' = (collected ++ concat_chunks chunks)%string
    /\ forallb nonempty chunks = true.
Proof.
  unfold handle_content. destruct (content d) as [text|]; [destruct (nonempty text) eqn:Hn|].
  - exists (collected ++ text)%string, (yield text st).2, [text]. repeat split.
    + unfold concat_chunks. simpl. by rewrite append_empty_r.
    + simpl. by rewrite Hn.
  - exists collected, st, []. repeat split; simpl; by rewrite ?app_nil_r, ?append_empty_r.
  - exists collected, st, []. repeat split; simpl; by rewrite ?app_nil_r, ?append_empty_r.
Qed.

Lemma consume_text (stream : list StreamEvent) (collected collected' : string)
    (calls calls' : list ToolCall) (st st' : State) :
  consume stream collected calls st = (Ok (collected', calls'), st') ->
  exists chunks,
    yielded st' = yielded st ++ chunks
    /\ collected' = (collected ++ concat_chunks chunks)%string
    /\ forallb nonempty chunks = true.
Proof.
  revert collected calls st.
  induction stream as [|event rest IH]; intros collected calls st H.
  { injection H as <- _ <-. exists []. by rewrite app_nil_r, append_empty_r. }
  destruct event as [chunk|]; [|discriminate].
  cbn [consume] in H. destruct (first_choice chunk) as [choice|]; [|by eapply IH].
  destruct (delta choice) as [d|]; [|by eapply IH].
  destruct (handle_content_text d collected st) as (c1 & st1 & chunks & Hh & Hy & Hc & Hn).
  unfold bind, lift in H. rewrite Hh in H.
  destruct (handle_tool_calls d calls) as [calls1|e]; [|discriminate].
  destruct (truthy (finish_reason choice)).
  - injection H as <- _ <-. eauto.
  - apply IH in H as (chunks' & Hy' & Hc' & Hn').
    exists (chunks ++ chunks'). rewrite Hy', Hy, Hc', Hc, app_assoc.
    rewrite concat_chunks_app, append_assoc, forallb_app, Hn, Hn'. done.
Qed.

(** X13. What is recorded is what was streamed: when a turn's stream is
    collected, the text kept for the assistant message is the chunks
    yielded during that turn, in order and joined end to end; no empty
    chunk is yielded. *)
Theorem streamed_text_is_collected (st st1 : State) (collected : string)
    (calls : list ToolCall) :
  receive env st = (Ok (collected, calls), st1) ->
  exists chunks,
    yielded st1 = yielded st ++ chunks
    /\ collected = concat_chunks chunks
    /\ forallb nonempty chunks = true.
Proof.
  unfold receive, bind, invoke_model. intros H.
  apply consume_text in H as (chunks & Hy & Hc & Hn). exists chunks. done.
Qed.

Lemma consume_finishing (chunk : Chunk) (rest : list StreamEvent) (collected : string)
    (calls : list ToolCall) (st : State) :
  finishing chunk = true ->
  consume (Item chunk :: rest) collected calls st
  = consume [Item chunk] collected calls st.
Proof.
  unfold finishing. intros Hf. cbn [consume]. unfold first_choice.
  destruct (head (choices chunk)) as [choice|]; [|discriminate].
  destruct (delta choice) as [d|]; [|discriminate].
  unfold bind. destruct (handle_content d collected st) as [[c1|e] st1]; [|reflexivity].
  unfold lift. destruct (handle_tool_calls d calls); [|reflexivity]. by rewrite Hf.
Qed.

Lemma consume_cons_ext (event : StreamEvent) (a b : list StreamEvent) :
  (forall collected calls st, consume a collected calls st = consume b collected calls st) ->
  forall collected calls st,
    consume (event :: a) collected calls st = consume (event :: b) collected calls st.
Proof.
  intros Hab collected calls st. destruct event as [chunk|]; [|reflexivity].
  cbn [consume]. destruct (first_choice chunk) as [choice|]; [|apply Hab].
  destruct (delta choice) as [d|]; [|apply Hab].
  unfold bind. destruct (handle_content d collected st) as [[c1|e] st1]; [|reflexivity].
  unfold lift. destruct (handle_tool_calls d calls); [|reflexivity].
  destruct (truthy (finish_reason choice)); [reflexivity|apply Hab].
Qed.

(** X14. Reading stops at the first chunk that carries a delta and a
    finish reason: whatever the stream holds after it, more chunks or a
    failure, is never read. *)
Theorem nothing_read_after_finish (before rest : list StreamEvent) (chunk : Chunk)
    (collected : string) (calls : list ToolCall) (st : State) :
  finishing chunk = true ->
  consume (before ++ Item chunk :: rest) collected calls st
  = consume (before ++ [Item chunk]) collected calls st.
Proof.
  intros Hf. revert collected calls st.
  induction before as [|event before IH]; intros collected calls st.
  - by apply consume_finishing.
  - rewrite <- !app_comm_cons. by apply consume_cons_ext.
Qed.

(** X15. A chunk without choices, or whose first choice has no delta, is
    passed over wherever it stands in the stream, even when it carries a
    finish reason: the turn is read as if the chunk were not there. *)
Theorem chunk_without_delta_is_skipped (before rest : list StreamEvent) (chunk : Chunk)
    (collected : string) (calls : list ToolCall) (st : State) :
  inert chunk = true ->
  consume (before ++ Item chunk :: rest) collected calls st
  = consume (before ++ rest) collected calls st.
Proof.
  intros Hi. revert collected calls st.
  induction before as [|event before IH]; intros collected calls st.
  - simpl app. cbn [consume]. unfold inert in Hi. unfold first_choice.
    destruct (head (choices chunk)) as [choice|]; [|reflexivity].
    by destruct (delta choice).
  - rewrite <- !app_comm_cons. by apply consume_cons_ext.
Qed.

(** X11. How the provider cuts a delta into chunks does not matter: a
    chunk with text and fragments and no finish reason, followed by a chunk
    with more fragments and no text, is read exactly as the one chunk that
    carries the text, all the fragments in order, and the second chunk's
    finish reason; that includes the text yielded before an [IndexError]
    and what is read after the two chunks. *)
Theorem split_chunk_reads_as_one (text : option string) (a b : list ToolCallDelta)
    (finish : option string) (rest : list StreamEvent) (collected : string)
    (calls : list ToolCall) (st : State) :
  consume (Examples.chunk text a None :: Examples.chunk None b finish :: rest)
          collected calls st
  = consume (Examples.chunk text (a ++ b) finish :: rest) collected calls st.
Proof.
  unfold Examples.chunk. cbn [consume]. unfold first_choice. simpl.
  unfold bind, lift, handle_tool_calls. simpl.
  destruct (handle_content _ collected st) as [[c1|e] st1]; [|reflexivity].
  rewrite accumulate_all_app.
  destruct (accumulate_all calls a) as [calls1|e]; [|reflexivity].
  unfold handle_content. simpl. unfold ret. simpl.
  by destruct (accumulate_all calls1 b).
Qed.

Lemma handle_tool_calls_fragments (chunk : Chunk) (choice : Choice) (d : ChoiceDelta)
    (calls : list ToolCall) :
  head (choices chunk) = Some choice -> delta choice = Some d ->
  handle_tool_calls d calls = accumulate_all calls (fragments chunk).
Proof.
  intros Hc Hd. unfold handle_tool_calls, fragments. rewrite Hc, Hd.
  by destruct (tool_calls d).
Qed.

Lemma consume_sound (stream : list StreamEvent) (collected : string)
    (calls : list ToolCall) (st : State) :
  forallb sound_event stream = true ->
  exists finalized st', consume stream collected calls st = (Ok finalized, st').
Proof.
  revert collected calls st.
  induction stream as [|event rest IH]; intros collected calls st Hs; [by eexists _, _|].
  cbn [forallb] in Hs. apply andb_prop in Hs as [He Hs].
  destruct event as [chunk|]; [|discriminate]. simpl in He.
  cbn [consume]. unfold first_choice.
  destruct (head (choices chunk)) as [choice|] eqn:Hc; [|by apply IH].
  destruct (delta choice) as [d|] eqn:Hd; [|by apply IH].
  destruct (handle_content_text d collected st) as (c1 & st1 & chunks & Hh & _).
  unfold bind, lift. rewrite Hh, (handle_tool_calls_fragments _ _ _ _ Hc Hd).
  destruct (accumulate_all_from_zero _ calls He) as (calls1 & -> & _).
  destruct (truthy (finish_reason choice)); [by eexists _, _|by apply IH].
Qed.

(** X16. Collecting a turn cannot fail on a well-formed stream: when the
    provider delivers every chunk and no fragment carries a negative
    index, the stream loop ends with a text and a list of records. *)
Theorem sound_stream_is_collected (st : State) :
  forallb sound_event (provider env (openai_messages st)) = true ->
  exists collected calls st1, receive env st = (Ok (collected, calls), st1).
Proof.
  intros Hs. unfold receive, bind, invoke_model.
  edestruct consume_sound as ([collected calls] & st1 & H); [exact Hs|].
  exists collected, calls, st1. exact H.
Qed.

Lemma accumulate_raises (calls : list ToolCall) (tc : ToolCallDelta) (e : exn) :
  accumulate calls tc = Raise e -> e = IndexError.
Proof.
  unfold accumulate, update_if, update_at.
  repeat case_match; simpl; repeat case_match; simpl; repeat case_match; congruence.
Qed.

Lemma accumulate_all_raises (tcs : list ToolCallDelta) (calls : list ToolCall) (e : exn) :
  accumulate_all calls tcs = Raise e -> e = IndexError.
Proof.
  revert calls. induction tcs as [|tc tcs IH]; intros calls; [discriminate|].
  simpl. destruct (accumulate calls tc) as [calls'|e'] eqn:Ha; simpl.
  - apply IH.
  - intros [= <-]. by eapply accumulate_raises.
Qed.

Lemma consume_raises (stream : list StreamEvent) (collected : string)
    (calls : list ToolCall) (st st' : State) (e : exn) :
  consume stream collected calls st = (Raise e, st') ->
  e = ProviderError \/ e = IndexError.
Proof.
  revert collected calls st.
  induction stream as [|event rest IH]; intros collected calls st H; [discriminate|].
  destruct event as [chunk|]; [|injection H as <- _; by left].
  cbn [consume] in H. destruct (first_choice chunk) as [choice|]; [|by eapply IH].
  destruct (delta choice) as [d|]; [|by eapply IH].
  destruct (handle_content_text d collected st) as (c1 & st1 & chunks & Hh & _).
  unfold bind, lift in H. rewrite Hh in H.
  destruct (handle_tool_calls d calls) as [calls1|e1] eqn:Ht.
  - destruct (truthy (finish_reason choice)); [discriminate|by eapply IH].
  - injection H as <- _. right. unfold handle_tool_calls in Ht.
    destruct (tool_calls d); [by eapply accumulate_all_raises|discriminate].
Qed.

(** X17. A turn that cannot be collected ends the request: the stream
    loop raises only when the provider's stream breaks or a fragment
    indexes outside the list, and then the run raises the same exception
    at once, with the message list and the query count as they were and
    the text streamed so far still delivered. *)
Theorem broken_turn_aborts (fuel : nat) (st st1 : State) (e : exn) :
  receive env st = (Raise e, st1) ->
  agent_loop env (S fuel) st = (Raise e, st1)
  /\ (e = ProviderError \/ e = IndexError)
  /\ openai_messages st1 = openai_messages st
  /\ queries st1 = queries st
  /\ exists chunks, yielded st1 = yielded st ++ chunks.
Proof.
  intros Hr. split; [|split].
  - cbn [agent_loop]. unfold bind, turn. unfold bind. by rewrite Hr.
  - unfold receive, bind, invoke_model in Hr. by eapply consume_raises.
  - apply receive_state in Hr as (Hm & _ & Hq & Hy). done.
Qed.

End StreamMore.

(** ** The loop as a whole *)

Section LoopMore.

Variable env : Collaborators.

Lemma named_exists_first (calls : list ToolCall) :
  existsb named calls = false -> has_tool_calls calls = false.
Proof.
  destruct calls as [|c calls]; [done|]. simpl.
  intros [H _]%orb_false_elim. exact H.
Qed.

(** X18. A turn without a named record is the last: when none of the
    finalized records has a name (or there is none), the loop finishes
    after this single model call, with no message appended and no query
    run. *)
Theorem turn_without_named_call_finishes (fuel : nat) (st st1 : State)
    (collected : string) (calls : list ToolCall) :
  receive env st = (Ok (collected, calls), st1) ->
  existsb named calls = false ->
  agent_loop env (S fuel) st = (Ok Finished, st1)
  /\ invocations st1 = S (invocations st)
  /\ openai_messages st1 = openai_messages st
  /\ queries st1 = queries st.
Proof.
  intros Hr Hn. split.
  - eapply turn_breaks; [exact Hr|by apply named_exists_first].
  - apply receive_state in Hr as (Hm & Hi & Hq & _). done.
Qed.

(** X19. A turn whose first record is named and whose calls all return:
    the pass appends the assistant message and then one tool message for
    each named record, in index order, runs one query for each, and only
    then calls the model again. *)
Theorem named_calls_answered_in_order (fuel : nat) (st st1 st2 : State)
    (collected : string) (calls : list ToolCall) :
  receive env st = (Ok (collected, calls), st1) ->
  has_tool_calls calls = true ->
  run_tool_calls env calls (append_message (assistant_message collected calls) st1).2
    = (Ok tt, st2) ->
  agent_loop env (S fuel) st = agent_loop env fuel st2
  /\ exists added,
       openai_messages st2
       = openai_messages st ++ assistant_message collected calls :: added
       /\ Forall2 (fun m tc => exists text, m = ToolMessage (call_id tc) text)
                  added (List.filter named calls)
       /\ invocations st2 = S (invocations st)
       /\ queries st2 = queries st + length (List.filter named calls).
Proof.
  intros Hr Hg Hrun. split.
  - by eapply turn_continues.
  - by eapply turn_answers_named_calls.
Qed.

Lemma tool_messages_appended (added : list Message) (answered : list ToolCall) :
  Forall2 (fun m tc => exists text, m = ToolMessage (call_id tc) text) added answered ->
  forallb appended_by_loop added = true
  /\ tool_message_ids added = map call_id answered.
Proof.
  induction 1 as [|m tc added answered [text ->] _ [IH1 IH2]]; [done|].
  simpl. rewrite IH1. split; [done|]. unfold tool_message_ids in *. simpl. by rewrite IH2.
Qed.

Lemma assistant_message_appended (collected : string) (calls : list ToolCall) :
  has_tool_calls calls = true ->
  appended_by_loop (assistant_message collected calls) = true.
Proof.
  intros Hg. destruct calls as [|c calls]; [discriminate|].
  change (named c = true) in Hg.
  unfold assistant_message, appended_by_loop. cbn [List.filter]. rewrite Hg.
  cbn [forallb]. rewrite Hg. cbn [andb].
  assert (Hall : forallb named (List.filter named calls) = true).
  { apply forallb_forall. intros x Hx. by apply filter_In in Hx as [_ Hx]. }
  rewrite Hall. by destruct (nonempty collected) eqn:Hc.
Qed.

Lemma run_tool_calls_yielded (calls : list ToolCall) (st st' : State) (r : result unit) :
  run_tool_calls env calls st = (r, st') ->
  (exists chunks, yielded st' = yielded st ++ chunks) /\ queries st <= queries st'.
Proof.
  revert st. induction calls as [|tc rest IH]; intros st H.
  { injection H as _ <-. split; [exists []; by rewrite app_nil_r|lia]. }
  rewrite run_tool_calls_cons in H.
  pose proof (run_tool_call_outcome env tc st) as Ho.
  destruct (run_tool_call env tc st) as [r1 st1]. simpl in Ho.
  assert (Hstep : (exists chunks, yielded st1 = yielded st ++ chunks)
                  /\ queries st <= queries st1).
  { destruct Ho; simpl; (split; [|lia]); eauto; exists []; by rewrite app_nil_r. }
  destruct Hstep as [[chunks Hy] Hq].
  destruct r1 as [[]|e].
  - apply IH in H as [[chunks' Hy'] Hq']. split; [|lia].
    exists (chunks ++ chunks'). by rewrite Hy', Hy, app_assoc.
  - injection H as _ <-. eauto.
Qed.

(** A pass only appends, and what it appends to the message list are
    messages of the loop's own making. *)
Lemma turn_appends (st st' : State) (r : result bool) :
  turn env st = (r, st') ->
  (exists added, openai_messages st' = openai_messages st ++ added
                 /\ forallb appended_by_loop added = true)
  /\ (exists chunks, yielded st' = yielded st ++ chunks)
  /\ invocations st' = S (invocations st)
  /\ queries st <= queries st'.
Proof.
  unfold turn. unfold bind at 1. intros H.
  destruct (receive env st) as [[[collected calls]|e] st1] eqn:Hr;
    apply receive_state in Hr as (Hm & Hi & Hq & chunks & Hy); simpl in H.
  - destruct (has_tool_calls calls) eqn:Hg.
    + unfold bind at 1 in H. unfold append_message at 1 in H. unfold bind at 1 in H.
      match type of H with context [run_tool_calls env calls ?s] =>
        destruct (run_tool_calls env calls s) as [r2 st2] eqn:Hrun end.
      pose proof (run_tool_calls_messages env _ _ _ _ Hrun)
        as (added & answered & pending & Hm2 & Hf & _ & Hi2 & _).
      pose proof (run_tool_calls_yielded _ _ _ _ Hrun) as [[chunks2 Hy2] Hq2].
      simpl in *.
      assert (st' = st2) as -> by (destruct r2; by injection H as _ <-).
      repeat split.
      * exists (assistant_message collected calls :: added).
        rewrite Hm2, Hm, <- app_assoc. split; [done|]. cbn [forallb].
        rewrite (assistant_message_appended _ _ Hg).
        by apply tool_messages_appended in Hf as [-> _].
      * exists (chunks ++ chunks2). by rewrite Hy2, Hy, app_assoc.
      * by rewrite Hi2, Hi.
      * lia.
    + injection H as _ <-. repeat split; try done; [|eauto|lia].
      exists []. by rewrite app_nil_r.
  - injection H as _ <-. repeat split; try done; [|eauto|lia].
    exists []. by rewrite app_nil_r.
Qed.

Lemma agent_loop_appends (fuel : nat) (st st' : State) (r : result Completion) :
  agent_loop env fuel st = (r, st') ->
  (exists added, openai_messages st' = openai_messages st ++ added
                 /\ forallb appended_by_loop added = true)
  /\ (exists chunks, yielded st' = yielded st ++ chunks)
  /\ invocations st <= invocations st' <= invocations st + fuel
  /\ queries st <= queries st'.
Proof.
  revert st. induction fuel as [|fuel IH]; intros st H.
  { injection H as _ <-. repeat split; try lia; exists []; by rewrite app_nil_r. }
  cbn [agent_loop] in H. unfold bind in H.
  destruct (turn env st) as [[again|e] st1] eqn:Ht;
    apply turn_appends in Ht as ((added & Hm & Ha) & (chunks & Hy) & Hi & Hq).
  - destruct again.
    + apply IH in H as ((added' & Hm' & Ha') & (chunks' & Hy') & Hi' & Hq').
      repeat split; try lia.
      * exists (added ++ added'). rewrite Hm', Hm, app_assoc, forallb_app, Ha, Ha'. done.
      * exists (chunks ++ chunks'). by rewrite Hy', Hy, app_assoc.
    + injection H as _ <-. repeat split; eauto; lia.
  - injection H as _ <-. repeat split; eauto; lia.
Qed.

(** X20. The message list only grows, and the loop adds nothing but its
    own two kinds of message: however the run ends, its list is the
    system message and the caller's messages, in order, followed by tool
    messages and by assistant messages that each carry at least one
    descriptor, named descriptors only, and a text that is absent or
    non-empty. The model is called at most once per pass. *)
Theorem run_only_appends_loop_messages (fuel : nat) (messages : list (string * string)) :
  let st' := (run_agent env fuel messages).2 in
  (exists added,
     openai_messages st'
     = Plain "system" (SYSTEM_PROMPT env)
         :: map (fun m => Plain (fst m) (snd m)) messages ++ added
     /\ forallb appended_by_loop added = true)
  /\ invocations st' <= fuel.
Proof.
  unfold run_agent.
  destruct (agent_loop env fuel (initial_state env messages)) as [r st'] eqn:H.
  apply agent_loop_appends in H as ((added & Hm & Ha) & _ & Hi & _).
  simpl in *. split; [|lia]. exists added. by rewrite Hm.
Qed.

(** X21. The request side: [chat] sends the model one message per
    message of the request, in order, each with its role and with the
    text of [extract_text], a message without text included; the ids of
    the request are not sent. *)
Theorem chat_sends_every_message (fuel : nat) (request : Request.ChatRequest) :
  exists added,
    openai_messages (chat env fuel request).2
    = Plain "system" (SYSTEM_PROMPT env)
        :: map (fun m => Plain (Request.role m) (Request.extract_text m))
               (Request.messages request) ++ added
    /\ forallb appended_by_loop added = true.
Proof.
  unfold chat, run_agent, Request.flatten.
  destruct (agent_loop env fuel _) as [r st'] eqn:H.
  apply agent_loop_appends in H as ((added & Hm & Ha) & _).
  exists added. split; [|done]. simpl in *. rewrite Hm. unfold initial_messages.
  by rewrite map_map.
Qed.

Lemma tool_message_ids_app (a b : list Message) :
  tool_message_ids (a ++ b) = tool_message_ids a ++ tool_message_ids b.
Proof. unfold tool_message_ids. apply omap_app. Qed.

Lemma run_tool_calls_counts (calls : list ToolCall) (st st' : State) (r : result unit) :
  run_tool_calls env calls st = (r, st') ->
  queries st = answered_count st ->
  match r with
  | Ok _ => queries st' = answered_count st'
  | Raise _ => answered_count st' <= queries st' <= S (answered_count st')
  end.
Proof.
  revert st. induction calls as [|tc rest IH]; intros st H Hq.
  { by injection H as <- <-. }
  rewrite run_tool_calls_cons in H.
  pose proof (run_tool_call_outcome env tc st) as Ho.
  destruct (run_tool_call env tc st) as [r1 st1]. simpl in Ho.
  destruct Ho as [Hn|keywords text Hn|e Hn|e keywords Hn].
  - by apply IH in H.
  - apply IH in H; [done|]. unfold answered_count in *. simpl.
    rewrite tool_message_ids_app, length_app. simpl. lia.
  - injection H as <- <-. lia.
  - injection H as <- <-. unfold answered_count in *. simpl. lia.
Qed.

Lemma agent_loop_counts (fuel : nat) (st st' : State) (r : result Completion) :
  agent_loop env fuel st = (r, st') ->
  queries st = answered_count st ->
  match r with
  | Ok _ => queries st' = answered_count st'
  | Raise _ => answered_count st' <= queries st' <= S (answered_count st')
  end.
Proof.
  revert st. induction fuel as [|fuel IH]; intros st H Hq.
  { by injection H as <- <-. }
  cbn [agent_loop] in H. unfold bind at 1 in H. unfold turn in H. unfold bind at 1 in H.
  destruct (receive env st) as [[[collected calls]|e] st1] eqn:Hr;
    apply receive_state in Hr as (Hm & _ & Hq1 & _); simpl in H.
  - assert (Hq' : queries st1 = answered_count st1).
    { unfold answered_count. by rewrite Hm, Hq1. }
    destruct (has_tool_calls calls).
    + unfold bind at 1 in H. unfold append_message at 1 in H. unfold bind at 1 in H.
      match type of H with context [run_tool_calls env calls ?s] =>
        destruct (run_tool_calls env calls s) as [r2 st2] eqn:Hrun end.
      apply run_tool_calls_counts in Hrun.
      * destruct r2 as [[]|e]; simpl in H.
        -- eapply IH; [exact H|exact Hrun].
        -- injection H as <- <-. exact Hrun.
      * unfold answered_count in *. simpl.
        rewrite tool_message_ids_app, length_app. simpl. lia.
    + by injection H as <- <-.
  - injection H as <- <-. unfold answered_count in *. rewrite Hm, Hq1. lia.
Qed.

(** X22. Queries and tool messages go together: when a run ends without
    an exception, it has run exactly as many storage queries as its
    message list holds tool messages; when it ends in an exception, at
    most one query, the failing one, has no tool message. *)
Theorem every_query_is_answered (fuel : nat) (messages : list (string * string)) :
  let r := (run_agent env fuel messages).1 in
  let st' := (run_agent env fuel messages).2 in
  match r with
  | Ok _ => queries st' = length (tool_message_ids (openai_messages st'))
  | Raise _ =>
    length (tool_message_ids (openai_messages st')) <= queries st'
    <= S (length (tool_message_ids (openai_messages st')))
  end.
Proof.
  unfold run_agent.
  destruct (agent_loop env fuel (initial_state env messages)) as [r st'] eqn:H.
  apply agent_loop_counts in H; [exact H|]. clear H.
  unfold answered_count, initial_state, initial_messages, tool_message_ids. simpl.
  induction messages as [|m ms IH]; [reflexivity|exact IH].
Qed.

End LoopMore.

(** ** [extract_text] *)

Section RequestMore.

Import Request.

Lemma join_cons (sep x : string) (l : list string) :
  l <> [] -> join sep (x :: l) = (x ++ sep ++ join sep l)%string.
Proof. by destruct l. Qed.

Lemma join_app (sep : string) (a b : list string) :
  a <> [] -> b <> [] ->
  join sep (a ++ b) = (join sep a ++ sep ++ join sep b)%string.
Proof.
  intros Ha Hb. induction a as [|x a IH]; [done|].
  destruct a as [|y a].
  - simpl app. by rewrite join_cons.
  - rewrite <- app_comm_cons, join_cons by done.
    rewrite IH by done. rewrite (join_cons sep x (y :: a)) by done.
    by rewrite !append_assoc.
Qed.

Lemma text_of_none (part : MessagePart) :
  text_of part = None <-> type part <> "text" \/ truthy (text part) = false.
Proof.
  unfold text_of. destruct (String.eqb_spec (type part) "text") as [He|He]; simpl.
  - destruct (text part) as [t|] eqn:Ht; simpl.
    + destruct (nonempty t); split; try done; [intros [?|?]; done|by right].
    + split; [by right|done].
  - split; [by left|done].
Qed.

(** X23. Only text parts with text count: a part whose type is not
    [text], or whose text is absent or empty, can be put anywhere among
    the parts of a message, or taken out, without changing the extracted
    text; in particular it adds no separating space. *)
Theorem extract_text_ignores_other_parts (i i' : option string) (r r' : string)
    (before after : list MessagePart) (part : MessagePart) :
  type part <> "text" \/ truthy (text part) = false ->
  extract_text {| id := i; role := r; parts := before ++ part :: after |}
  = extract_text {| id := i'; role := r'; parts := before ++ after |}.
Proof.
  intros H%text_of_none. unfold extract_text. simpl.
  rewrite !omap_app. simpl. by rewrite H.
Qed.

(** X24. Texts are joined by single spaces and by nothing else: the text
    of a message whose parts are two lists one after the other is the two
    texts with one space between them, and just the other text when one of
    the lists has no text part with text. *)
Theorem extract_text_app (i : option string) (r : string) (a b : list MessagePart) :
  let whole := extract_text {| id := i; role := r; parts := a ++ b |} in
  let left := extract_text {| id := i; role := r; parts := a |} in
  let right := extract_text {| id := i; role := r; parts := b |} in
  (omap text_of a = [] -> whole = right)
  /\ (omap text_of b = [] -> whole = left)
  /\ (omap text_of a <> [] -> omap text_of b <> [] ->
      whole = (left ++ " " ++ right)%string).
Proof.
  unfold extract_text. simpl. rewrite omap_app. repeat split.
  - by intros ->.
  - intros ->. by rewrite app_nil_r.
  - intros Ha Hb. by apply join_app.
Qed.

End RequestMore.

(** ** Seeding at start-up *)

Section SeedMore.

Import Seed.

Lemma decimal_value_nonneg (s : string) : (0 <= decimal_value s)%Z.
Proof.
  unfold decimal_value. generalize (list_ascii_of_string s) as l.
  assert (H : forall l acc, (0 <= acc)%Z ->
            (0 <= foldl (fun acc c => 10 * acc + Z.of_nat (nat_of_ascii c - 48)) acc l)%Z).
  { induction l as [|c l IH]; intros acc Hacc; [done|]. simpl. apply IH. lia. }
  intros l. by apply H.
Qed.

Lemma decimal_is_digit (l : list ascii) :
  forallb is_decimal l = true -> forallb is_digit l = true.
Proof.
  induction l as [|c l IH]; [done|]. simpl. intros [Hc Hl]%andb_prop.
  unfold is_digit. rewrite Hc. simpl. auto.
Qed.

(** X25. How the [Company ID] cell becomes [company_id]. A missing
    column, and a cell that [isdigit] rejects (empty, signed, padded,
    with a letter or a point), give NULL without an exception; a
    non-empty run of at most 4300 decimal digits gives its value, which
    is never negative; a cell missing from a short line, and a cell of
    digits that holds a superscript digit, raise. *)
Theorem company_id_of_cell (row : Row) :
  (lookup_cell "Company ID" row = None -> company_id_of row = Some None)
  /\ (lookup_cell "Company ID" row = Some None -> company_id_of row = None)
  /\ forall cell, lookup_cell "Company ID" row = Some (Some cell) ->
       (isdigit cell = false -> company_id_of row = Some None)
       /\ (nonempty cell = true ->
           forallb is_decimal (list_ascii_of_string cell) = true ->
           String.length cell <= 4300 ->
           company_id_of row = Some (Some (decimal_value cell))
           /\ (0 <= decimal_value cell)%Z)
       /\ (isdigit cell = true ->
           forallb is_decimal (list_ascii_of_string cell) = false ->
           company_id_of row = None).
Proof.
  unfold company_id_of, get. split; [by intros ->|]. split; [by intros ->|].
  intros cell ->. split; [by intros ->|]. split.
  - intros Hn Hd Hlen. split; [|apply decimal_value_nonneg].
    unfold isdigit, int. rewrite Hn, (decimal_is_digit _ Hd), Hd. simpl.
    by rewrite (proj2 (Nat.leb_le _ _) Hlen).
  - unfold int. by intros -> ->.
Qed.

Lemma convert_rows (keys : nat -> Z) (rows : list Row) (position : nat)
    (cs : list Company) :
  convert keys position rows = Some cs ->
  length cs = length rows
  /\ forall k row, rows !! k = Some row ->
       exists c, cs !! k = Some c /\ company_of_row (keys (position + k)) row = Some c.
Proof.
  revert position cs. induction rows as [|row rows IH]; intros position cs H.
  { injection H as <-. split; [done|]. intros k row Hk. done. }
  simpl in H. destruct (company_of_row (keys position) row) as [c|] eqn:Hc; [|done].
  destruct (convert keys (S position) rows) as [cs'|] eqn:Hcs; [|done].
  injection H as <-. destruct (IH _ _ Hcs) as [Hlen Hrows]. split; [simpl; lia|].
  intros [|k] row' Hk.
  - injection Hk as <-. exists c. by rewrite Nat.add_0_r.
  - destruct (Hrows k row' Hk) as (c' & Hc' & Hrow). exists c'. split; [done|].
    by replace (position + S k) with (S position + k) by lia.
Qed.

Lemma company_of_row_fields (key : Z) (row : Row) (c : Company) :
  company_of_row key row = Some c ->
  id c = key
  /\ company_name c = get "Company Name" row
  /\ city c = get "City" row
  /\ description c = get "Description" row
  /\ website_url c = get "Website URL" row
  /\ website_text c = get "Website Text" row
  /\ company_id_of row = Some (company_id c).
Proof.
  unfold company_of_row. destruct (company_id_of row) as [cid|]; [|done].
  by intros [= <-].
Qed.

(** X26. A seeding that returns has loaded the file and nothing else:
    the table holds one company for each row of the file, in file order,
    with the key the table assigned, the five text cells as read and an
    id that fits the column; the rows the table held before are gone, and
    the settings are untouched. *)
Theorem seeding_loads_every_row (rows : list Row) (keys : nat -> Z) (db db' : Database) :
  seed_database (Rows rows) keys db = Returned db' ->
  settings db' = settings db
  /\ length (companies db') = length rows
  /\ forall k row, rows !! k = Some row ->
       exists c, companies db' !! k = Some c
         /\ id c = keys k
         /\ company_name c = get "Company Name" row
         /\ city c = get "City" row
         /\ description c = get "Description" row
         /\ website_url c = get "Website URL" row
         /\ website_text c = get "Website Text" row
         /\ company_id_of row = Some (company_id c)
         /\ fits_integer c = true.
Proof.
  unfold seed_database. destruct (convert keys 0 rows) as [cs|] eqn:Hcs; [|done].
  destruct (forallb accepted cs) eqn:Hfit; [|done]. intros [= <-]. simpl.
  destruct (convert_rows _ _ _ _ Hcs) as [Hlen Hrows]. repeat split; [done|].
  intros k row Hk. destruct (Hrows k row Hk) as (c & Hc & Hrow).
  exists c. split; [done|]. simpl in Hrow.
  destruct (company_of_row_fields _ _ _ Hrow) as (? & ? & ? & ? & ? & ? & ?).
  repeat (split; [done|]).
  rewrite forallb_forall in Hfit.
  assert (Hc' : accepted c = true).
  { apply Hfit. apply list_elem_of_In, list_elem_of_lookup. eauto. }
  unfold accepted in Hc'. by apply andb_prop in Hc' as [-> _].
Qed.

Lemma lifespan_seeded (file : CsvFile) (keys : nat -> Z) (db : Database) :
  seeded db = true -> lifespan file keys db = Returned db.
Proof. unfold lifespan. by intros ->. Qed.

Lemma lifespan_returns_seeded (file : CsvFile) (keys : nat -> Z) (db db' : Database) :
  lifespan file keys db = Returned db' -> seeded db' = true.
Proof.
  unfold lifespan. destruct (seeded db) eqn:Hs; [by intros [= <-]|].
  destruct (seed_database file keys db); [|done]. intros [= <-]. unfold seeded. simpl.
  reflexivity.
Qed.

(** X27. Seeding happens once: after a start-up that returned, every later
    start-up returns the database as it is, whatever the file holds by
    then. *)
Theorem lifespan_seeds_once (file file' : CsvFile) (keys keys' : nat -> Z)
    (db db' : Database) :
  lifespan file keys db = Returned db' ->
  lifespan file' keys' db' = Returned db'.
Proof. intros H. apply lifespan_seeded. by eapply lifespan_returns_seeded. Qed.

(** X28. A missing file counts as a seeding: when the database is not
    marked seeded and the file is absent, start-up empties the table,
    marks the database seeded and returns, so that later start-ups load
    nothing even when the file is there. *)
Theorem missing_file_seeds_nothing (keys : nat -> Z) (db : Database) :
  seeded db = false ->
  exists db',
    lifespan Missing keys db = Returned db'
    /\ companies db' = []
    /\ settings db' = "seeded" :: settings db
    /\ forall file' keys', lifespan file' keys' db' = Returned db'.
Proof.
  intros Hs. eexists. split; [unfold lifespan; by rewrite Hs|].
  repeat split.
Qed.

Lemma company_of_row_none (key : Z) (row : Row) :
  company_of_row key row = None <-> company_id_of row = None.
Proof. unfold company_of_row. by destruct (company_id_of row). Qed.

Lemma convert_none (keys : nat -> Z) (rows : list Row) (position : nat) :
  convert keys position rows = None <->
  exists row, In row rows /\ company_id_of row = None.
Proof.
  revert position. induction rows as [|row rows IH]; intros position; simpl.
  { split; [done|]. by intros (row & [] & _). }
  destruct (company_of_row (keys position) row) as [c|] eqn:Hc.
  - assert (Hrow : company_id_of row <> None).
    { intros Hn. apply (proj2 (company_of_row_none (keys position) row)) in Hn.
      by rewrite Hn in Hc. }
    destruct (convert keys (S position) rows) as [cs|] eqn:Hcs.
    + split; [done|]. intros (row' & [<-|Hin] & Hn); [done|].
      assert (Hex : exists row, In row rows /\ company_id_of row = None) by eauto.
      apply (proj2 (IH (S position))) in Hex. by rewrite Hcs in Hex.
    + split; [|done]. intros _. destruct (proj1 (IH _) Hcs) as (row' & Hin & Hn).
      eauto.
  - split; [|done]. intros _. exists row. split; [by left|].
    exact (proj1 (company_of_row_none _ _) Hc).
Qed.

Lemma convert_member (keys : nat -> Z) (rows : list Row) (position : nat)
    (cs : list Company) (row : Row) :
  convert keys position rows = Some cs -> In row rows ->
  exists c key, In c cs /\ company_of_row key row = Some c.
Proof.
  intros Hcs Hin. apply list_elem_of_In, list_elem_of_lookup in Hin as [k Hk].
  destruct (convert_rows _ _ _ _ Hcs) as [_ Hrows].
  destruct (Hrows k row Hk) as (c & Hc & Hrow). exists c, (keys (position + k)).
  split; [|done]. apply list_elem_of_In, list_elem_of_lookup. eauto.
Qed.

(** X29. Three ways a file makes start-up fail, and what the failure
    leaves. When the database is not marked seeded and the file has no
    first line to skip, or has a row whose id cell raises on conversion,
    whose id exceeds the 32 bits of the column, or one of whose text cells
    holds the NUL character, the start-up half of [lifespan] raises; the
    table is then empty and the database still unmarked, so that the next
    start-up seeds again. *)
Theorem lifespan_raises_and_resets (file : CsvFile) (keys : nat -> Z) (db : Database) :
  seeded db = false ->
  (file = NoTitleLine
   \/ exists rows row, file = Rows rows /\ In row rows
        /\ (company_id_of row = None
            \/ (exists n, company_id_of row = Some (Some n) /\ (2147483647 < n)%Z)
            \/ (exists column, In column text_columns
                               /\ holds_nul (get column row) = true))) ->
  lifespan file keys db = Raised {| companies := []; settings := settings db |}
  /\ seeded {| companies := []; settings := settings db |} = false.
Proof.
  intros Hs Hfile. split; [|exact Hs]. unfold lifespan. rewrite Hs.
  destruct Hfile as [->|(rows & row & -> & Hin & Hrow)]; [reflexivity|].
  unfold seed_database. destruct (convert keys 0 rows) as [cs|] eqn:Hcs; [|reflexivity].
  destruct (convert_member _ _ _ _ _ Hcs Hin) as (c & key & Hc & Hcr).
  apply company_of_row_fields in Hcr as (_ & Hname & Hcity & Hdesc & Hurl & Htext & Hid).
  assert (Hbad : accepted c = false).
  { unfold accepted. destruct Hrow as [Hn|[(n & Hn & Hbig)|(column & Hcol & Hnul)]].
    - by rewrite Hn in Hid.
    - rewrite Hn in Hid. injection Hid as Hid. unfold fits_integer. rewrite <- Hid.
      rewrite (proj2 (Z.leb_gt _ _)) by lia. reflexivity.
    - rewrite Hname, Hcity, Hdesc, Hurl, Htext. apply andb_false_iff. right.
      apply negb_false_iff.
      destruct Hcol as [<-|[<-|[<-|[<-|[<-|[]]]]]]; rewrite Hnul;
        by rewrite ?orb_true_r. }
  destruct (forallb accepted cs) eqn:Hall; [|reflexivity].
  rewrite forallb_forall in Hall. by rewrite (Hall c Hc) in Hbad.
Qed.

End SeedMore.

(** ** The further properties at concrete inputs *)

Section MoreWitnesses.

Import Examples MoreExamples.

(** [search_skips_null_columns] on the row found for [fintech] in Boston. *)
Lemma search_skips_null_columns_witness :
  In acme (search_rows table ["fintech"] (Some "Boston") 10)
  /\ (["fintech"] <> [] -> textless acme = false)
  /\ (forall c, Some "Boston" = Some c -> nonempty c = true -> city acme <> None).
Proof.
  assert (H : In acme (search_rows table ["fintech"] (Some "Boston") 10)) by (by left).
  split; [exact H|].
  exact (search_skips_null_columns table ["fintech"] (Some "Boston") 10 acme H).
Defined.

(** [search_ignores_term_case] on [FinTech] and [fintech], [BOSTON] and
    [boston]. *)
Lemma search_ignores_term_case_witness :
  Forall2 (fun a b => same_folded a b = true) ["FinTech"] ["fintech"]
  /\ same_folded "BOSTON" "boston" = true
  /\ search_startups table ["FinTech"] (Some "BOSTON") 10
     = search_startups table ["fintech"] (Some "boston") 10.
Proof.
  assert (H1 : Forall2 (fun a b => same_folded a b = true) ["FinTech"] ["fintech"]).
  { constructor; [reflexivity|constructor]. }
  assert (H2 : same_folded "BOSTON" "boston" = true) by reflexivity.
  split; [exact H1|]. split; [exact H2|].
  exact (proj1 (search_ignores_term_case table _ _ _ _ 10 H1 H2)).
Defined.

(** [search_ignores_keyword_order] on a list and its reverse with a
    repetition. *)
Lemma search_ignores_keyword_order_witness :
  (forall kw, In kw ["pay"; "api"] <-> In kw ["api"; "pay"; "api"])
  /\ search_startups table ["pay"; "api"] None 10
     = search_startups table ["api"; "pay"; "api"] None 10.
Proof.
  assert (H : forall kw, In kw ["pay"; "api"] <-> In kw ["api"; "pay"; "api"]).
  { intros kw. simpl. tauto. }
  split; [exact H|].
  exact (search_ignores_keyword_order table _ _ None 10 H).
Defined.

(** [more_keywords_select_more] on a row found for [pay], and on the
    row without a name for the empty list. *)
Lemma more_keywords_select_more_witness :
  ["pay"] <> []
  /\ where_clause ["pay"] None acme = true
  /\ where_clause (["pay"] ++ ["zzz"]) None acme = true
  /\ where_clause [] None nameless = passes_city None nameless.
Proof.
  assert (H1 : ["pay"] <> []) by discriminate.
  assert (H2 : where_clause ["pay"] None acme = true) by reflexivity.
  split; [exact H1|]. split; [exact H2|].
  destruct (more_keywords_select_more ["pay"] ["zzz"] None acme H1 H2) as [Hmore Hall].
  split; [exact Hmore|apply Hall].
Defined.

(** [empty_keyword_selects_rows_with_text] on a row with a name. *)
Lemma empty_keyword_selects_rows_with_text_witness :
  In EmptyString ["zzz"; EmptyString]
  /\ passes_keywords ["zzz"; EmptyString] abc = negb (textless abc).
Proof.
  assert (H : In EmptyString ["zzz"; EmptyString]) by (right; by left).
  split; [exact H|].
  exact (proj1 (empty_keyword_selects_rows_with_text _ abc H)).
Defined.


(** [description_cut_only_when_long] on a short description. *)
Lemma description_cut_only_when_long_witness :
  String.length (or_empty (description acme)) <= 300
  /\ r_description (to_result acme) = or_empty (description acme).
Proof.
  assert (H : String.length (or_empty (description acme)) <= 300) by (vm_compute; lia).
  split; [exact H|].
  exact (proj2 (description_cut_only_when_long acme) H).
Defined.

(** [last_id_and_name_win] on two fragments for index 0, the second
    with a new id and an empty name. *)
Lemma last_id_and_name_win_witness :
  let tcs := [fragment 0 (Some "call_a") (Some "search_startups") (Some "{");
              fragment 0 (Some "call_z") (Some EmptyString) (Some "}")] in
  indexed_from_zero tcs = true /\ 0 < extent tcs
  /\ exists calls c,
       accumulate_all [] tcs = Ok calls /\ calls !! 0 = Some c
       /\ call_id c = "call_z" /\ call_name c = "search_startups".
Proof.
  intros tcs.
  assert (H1 : indexed_from_zero tcs = true) by reflexivity.
  assert (H2 : 0 < extent tcs) by (vm_compute; lia).
  split; [exact H1|]. split; [exact H2|].
  exact (last_id_and_name_win tcs 0 H1 H2).
Defined.

(** [fragments_for_different_indices_commute] on indices 0 and 1. *)
Lemma fragments_for_different_indices_commute_witness :
  let a := fragment 0 (Some "call_a") (Some "search_startups") (Some "{}") in
  let b := fragment 1 (Some "call_b") (Some "search_startups") (Some "{}") in
  exists calls',
    accumulate_all [] [a; b] = Ok calls' /\ accumulate_all [] [b; a] = Ok calls'.
Proof.
  intros a b.
  assert (H0 : (0 <= 0)%Z) by lia.
  assert (H1 : (0 <= 1)%Z) by lia.
  assert (Hne : (0 <> 1)%Z) by lia.
  exact (fragments_for_different_indices_commute [] a b 0 1 eq_refl eq_refl H0 H1 Hne).
Defined.

(** [negative_index_from_the_end] on index -1 and a list of two records. *)
Lemma negative_index_from_the_end_witness :
  let tc := fragment (-1) (Some "call_x") None None in
  tc_index tc = Some (-1)%Z /\ (-1 < 0)%Z
  /\ accumulate [call_a; empty_call] tc
     = Ok (alter (merge tc) 1 [call_a; empty_call]).
Proof.
  intros tc.
  assert (H1 : tc_index tc = Some (-1)%Z) by reflexivity.
  assert (H2 : (-1 < 0)%Z) by lia.
  split; [exact H1|]. split; [exact H2|].
  apply (proj1 (negative_index_from_the_end [call_a; empty_call] tc (-1) H1 H2)).
  vm_compute. discriminate.
Defined.

(** [streamed_text_is_collected] on a turn of text in two chunks. *)
Lemma streamed_text_is_collected_witness :
  let w := world just_text up in
  let st := initial_state w hello in
  receive w st = (Ok ("Hello there", []), (receive w st).2)
  /\ exists chunks,
       yielded (receive w st).2 = yielded st ++ chunks
       /\ "Hello there" = concat_chunks chunks
       /\ forallb nonempty chunks = true.
Proof.
  intros w st.
  assert (H : receive w st = (Ok ("Hello there", []), (receive w st).2))
    by (vm_compute; reflexivity).
  split; [exact H|].
  exact (streamed_text_is_collected w st _ _ _ H).
Defined.

(** [nothing_read_after_finish] on a stream that breaks after its
    finishing chunk. *)
Lemma nothing_read_after_finish_witness :
  let w := world just_text up in
  let st := initial_state w hello in
  finishing last_chunk = true
  /\ consume ([chunk (Some "Hello") [] None] ++ Item last_chunk :: [Broken]) EmptyString [] st
     = consume ([chunk (Some "Hello") [] None] ++ [Item last_chunk]) EmptyString [] st.
Proof.
  intros w st.
  assert (H : finishing last_chunk = true) by reflexivity.
  split; [exact H|].
  exact (nothing_read_after_finish _ _ _ _ _ _ H).
Defined.

(** [chunk_without_delta_is_skipped] on a chunk without choices. *)
Lemma chunk_without_delta_is_skipped_witness :
  let w := world just_text up in
  let st := initial_state w hello in
  inert no_choice = true
  /\ consume ([chunk (Some "Hello") [] None] ++ Item no_choice :: [Item last_chunk])
       EmptyString [] st
     = consume ([chunk (Some "Hello") [] None] ++ [Item last_chunk]) EmptyString [] st.
Proof.
  intros w st.
  assert (H : inert no_choice = true) by reflexivity.
  split; [exact H|].
  exact (chunk_without_delta_is_skipped _ _ _ _ _ _ H).
Defined.

(** [sound_stream_is_collected] on the first turn of [two_searches]. *)
Lemma sound_stream_is_collected_witness :
  let w := world two_searches up in
  let st := initial_state w hello in
  forallb sound_event (provider w (openai_messages st)) = true
  /\ exists collected calls st1, receive w st = (Ok (collected, calls), st1).
Proof.
  intros w st.
  assert (H : forallb sound_event (provider w (openai_messages st)) = true) by reflexivity.
  split; [exact H|].
  exact (sound_stream_is_collected w st H).
Defined.

(** [broken_turn_aborts] on a stream that breaks after one chunk of text. *)
Lemma broken_turn_aborts_witness :
  let w := world breaking up in
  let st := initial_state w hello in
  receive w st = (Raise ProviderError, (receive w st).2)
  /\ agent_loop w 3 st = (Raise ProviderError, (receive w st).2)
  /\ exists chunks, yielded (receive w st).2 = yielded st ++ chunks.
Proof.
  intros w st.
  assert (H : receive w st = (Raise ProviderError, (receive w st).2))
    by (vm_compute; reflexivity).
  split; [exact H|].
  destruct (broken_turn_aborts w 2 st _ _ H) as (Hrun & _ & _ & _ & Hy).
  split; [exact Hrun|exact Hy].
Defined.

(** [turn_without_named_call_finishes] on a turn of text. *)
Lemma turn_without_named_call_finishes_witness :
  let w := world just_text up in
  let st := initial_state w hello in
  receive w st = (Ok ("Hello there", []), (receive w st).2)
  /\ existsb named [] = false
  /\ agent_loop w 3 st = (Ok Finished, (receive w st).2)
  /\ invocations (receive w st).2 = 1.
Proof.
  intros w st.
  assert (H : receive w st = (Ok ("Hello there", []), (receive w st).2))
    by (vm_compute; reflexivity).
  assert (Hn : existsb named [] = false) by reflexivity.
  split; [exact H|]. split; [exact Hn|].
  destruct (turn_without_named_call_finishes w 2 st _ _ _ H Hn) as (Hrun & Hi & _).
  split; [exact Hrun|exact Hi].
Defined.

(** [named_calls_answered_in_order] on a turn with two named calls. *)
Lemma named_calls_answered_in_order_witness :
  let w := world two_searches up in
  let st := initial_state w hello in
  let st1 := (receive w st).2 in
  let st2 := (run_tool_calls w [call_a; call_b]
                (append_message (assistant_message "Looking." [call_a; call_b]) st1).2).2 in
  receive w st = (Ok ("Looking.", [call_a; call_b]), st1)
  /\ has_tool_calls [call_a; call_b] = true
  /\ agent_loop w 3 st = agent_loop w 2 st2
  /\ queries st2 = queries st + 2.
Proof.
  intros w st st1 st2.
  assert (H : receive w st = (Ok ("Looking.", [call_a; call_b]), st1))
    by (vm_compute; reflexivity).
  assert (Hg : has_tool_calls [call_a; call_b] = true) by reflexivity.
  assert (Hrun : run_tool_calls w [call_a; call_b]
             (append_message (assistant_message "Looking." [call_a; call_b]) st1).2
           = (Ok tt, st2)) by (vm_compute; reflexivity).
  split; [exact H|]. split; [exact Hg|].
  destruct (named_calls_answered_in_order w 2 st st1 st2 _ _ H Hg Hrun)
    as (Hloop & added & _ & _ & _ & Hq).
  split; [exact Hloop|exact Hq].
Defined.

(** [extract_text_ignores_other_parts] on an image part between two
    text parts. *)
Lemma extract_text_ignores_other_parts_witness :
  (Request.type image_part <> "text" \/ truthy (Request.text image_part) = false)
  /\ Request.extract_text
       {| Request.id := Some "m1"; Request.role := "user";
          Request.parts := [text_part "find"] ++ image_part :: [text_part "startups"] |}
     = Request.extract_text
         {| Request.id := None; Request.role := "user";
            Request.parts := [text_part "find"] ++ [text_part "startups"] |}.
Proof.
  assert (H : Request.type image_part <> "text"
              \/ truthy (Request.text image_part) = false) by (left; discriminate).
  split; [exact H|].
  exact (extract_text_ignores_other_parts (Some "m1") None "user" "user" _ _ _ H).
Defined.

(** [extract_text_app] on two lists of one text part each. *)
Lemma extract_text_app_witness :
  omap Request.text_of [text_part "find"] <> []
  /\ omap Request.text_of [text_part "startups"] <> []
  /\ Request.extract_text
       {| Request.id := None; Request.role := "user";
          Request.parts := [text_part "find"] ++ [text_part "startups"] |}
     = "find startups".
Proof.
  assert (H1 : omap Request.text_of [text_part "find"] <> []) by discriminate.
  assert (H2 : omap Request.text_of [text_part "startups"] <> []) by discriminate.
  split; [exact H1|]. split; [exact H2|].
  exact (proj2 (proj2 (extract_text_app None "user" _ _)) H1 H2).
Defined.

(** [company_id_of_cell] on an id with leading zeros and on a signed id. *)
Lemma company_id_of_cell_witness :
  Seed.lookup_cell "Company ID" row_acme = Some (Some "0042")
  /\ Seed.company_id_of row_acme = Some (Some 42%Z)
  /\ Seed.lookup_cell "Company ID" row_signed = Some (Some "-5")
  /\ Seed.company_id_of row_signed = Some None.
Proof.
  assert (H1 : Seed.lookup_cell "Company ID" row_acme = Some (Some "0042")) by reflexivity.
  assert (H2 : Seed.lookup_cell "Company ID" row_signed = Some (Some "-5")) by reflexivity.
  split; [exact H1|]. split; [|split; [exact H2|]].
  - assert (Hlen : String.length "0042" <= 4300) by (vm_compute; lia).
    exact (proj1 (proj1 (proj2 (proj2 (proj2 (company_id_of_cell row_acme)) _ H1))
                    eq_refl eq_refl Hlen)).
  - exact (proj1 (proj2 (proj2 (company_id_of_cell row_signed)) _ H2) eq_refl).
Defined.

(** [seeding_loads_every_row] on a file of two rows. *)
Lemma seeding_loads_every_row_witness :
  let db' := {| Seed.companies :=
                  default [] (Seed.convert keys 0 [row_acme; row_signed]);
                Seed.settings := [] |} in
  Seed.seed_database (Seed.Rows [row_acme; row_signed]) keys fresh = Seed.Returned db'
  /\ length (Seed.companies db') = 2
  /\ Seed.settings db' = Seed.settings fresh.
Proof.
  intros db'.
  assert (H : Seed.seed_database (Seed.Rows [row_acme; row_signed]) keys fresh
              = Seed.Returned db') by reflexivity.
  split; [exact H|].
  destruct (seeding_loads_every_row _ _ _ _ H) as (Hs & Hl & _).
  split; [exact Hl|exact Hs].
Defined.

(** [lifespan_seeds_once] on a first start-up with two rows and a second
    one with another file. *)
Lemma lifespan_seeds_once_witness :
  let db' := {| Seed.companies :=
                  default [] (Seed.convert keys 0 [row_acme; row_signed]);
                Seed.settings := ["seeded"] |} in
  Seed.lifespan (Seed.Rows [row_acme; row_signed]) keys fresh = Seed.Returned db'
  /\ Seed.lifespan (Seed.Rows [row_acme]) keys db' = Seed.Returned db'.
Proof.
  intros db'.
  assert (H : Seed.lifespan (Seed.Rows [row_acme; row_signed]) keys fresh
              = Seed.Returned db') by reflexivity.
  split; [exact H|].
  exact (lifespan_seeds_once _ (Seed.Rows [row_acme]) _ keys _ _ H).
Defined.

(** [missing_file_seeds_nothing] on a database that holds one company. *)
Lemma missing_file_seeds_nothing_witness :
  Seed.seeded fresh = false
  /\ exists db',
       Seed.lifespan Seed.Missing keys fresh = Seed.Returned db'
       /\ Seed.companies db' = []
       /\ Seed.lifespan (Seed.Rows [row_acme]) keys db' = Seed.Returned db'.
Proof.
  assert (H : Seed.seeded fresh = false) by reflexivity.
  split; [exact H|].
  destruct (missing_file_seeds_nothing keys fresh H) as (db' & H1 & H2 & _ & H3).
  exists db'. split; [exact H1|]. split; [exact H2|]. apply H3.
Defined.

(** [lifespan_raises_and_resets] on a file with a line cut short. *)
Lemma lifespan_raises_and_resets_witness :
  Seed.seeded fresh = false
  /\ In row_short [row_acme; row_short]
  /\ Seed.company_id_of row_short = None
  /\ Seed.lifespan (Seed.Rows [row_acme; row_short]) keys fresh
     = Seed.Raised {| Seed.companies := []; Seed.settings := [] |}.
Proof.
  assert (H1 : Seed.seeded fresh = false) by reflexivity.
  assert (H2 : In row_short [row_acme; row_short]) by (right; by left).
  assert (H3 : Seed.company_id_of row_short = None) by reflexivity.
  split; [exact H1|]. split; [exact H2|]. split; [exact H3|].
  apply (lifespan_raises_and_resets (Seed.Rows [row_acme; row_short]) keys fresh H1).
  right. exists [row_acme; row_short], row_short.
  split; [reflexivity|]. split; [exact H2|]. left. exact H3.
Defined.

End MoreWitnesses.
